(** * Screen-share signaling relay and viewer-side control transport

    A shallow embedding of the two JavaScript sources of the repository:
    the Socket.IO signaling handler (rooms, peers, [generate-code],
    [join-room], [disconnect], the hourly clean-up) and the browser client
    [app.js] (SDP rewriting, control-event batching, sharing-code
    formatting), with the properties the specification states about them. *)

From Stdlib Require Import ZArith QArith Qround Qpower Lqa DecimalString Ascii.
From stdpp Require Import gmap strings list fin_maps.

Local Open Scope Z_scope.
Local Open Scope string_scope.

(** ** JavaScript values used by both files *)

(** [`${n}`] for an integral number: decimal digits, a leading minus sign
    for negatives. *)
Definition number_to_string (n : Z) : string :=
  NilZero.string_of_int (Z.to_int n).

(** Truthiness of a value that is either [null] or a string: [null] and the
    empty string are falsy. *)
Definition truthy (v : option string) : bool :=
  match v with
  | Some s => negb (String.eqb s "")
  | None => false
  end.

(** ** JavaScript numbers

    A JavaScript number is an IEEE-754 binary64 value.  The finite ones are
    the rationals [m * 2^e] with [|m| < 2^53] and [-1074 <= e <= 971]; they
    are kept here as exact rationals, and every arithmetic operation is the
    exact operation followed by rounding to the nearest such value, ties to
    the even significand.  Overflow to infinity is not modelled: the numbers
    of this program stay below a thousand. *)

Definition pow2 (e : Z) : Q := Qpower 2 e.

(** The exponent [k] with [2^k <= x < 2^(k+1)], for a positive [x]. *)
Definition ilog2 (x : Q) : Z :=
  let d := Z.log2 (Qnum x) - Z.log2 (Zpos (Qden x)) in
  if Qle_bool (pow2 d) x then d else d - 1.

(** The integer nearest to [y], a tie going to the even one. *)
Definition round_half_even (y : Q) : Z :=
  let f := Qfloor y in
  match Qcompare (y - inject_Z f) (1#2) with
  | Lt => f
  | Gt => f + 1
  | Eq => if Z.even f then f else f + 1
  end.

(** Rounding of a positive rational: a significand of 53 bits, and the
    spacing [2^-1074] of the subnormal numbers below [2^-1022]. *)
Definition round_pos (x : Q) : Q :=
  let e := Z.max (ilog2 x - 52) (-1074) in
  (inject_Z (round_half_even (x / pow2 e)) * pow2 e)%Q.

Definition to_double (x : Q) : Q :=
  match Qcompare x 0 with
  | Eq => 0%Q
  | Gt => round_pos x
  | Lt => (- round_pos (- x))%Q
  end.

(** The finite values of a JavaScript number. *)
Definition is_double (x : Q) : Prop :=
  ∃ m e, (x == inject_Z m * pow2 e)%Q ∧ (Z.abs m < 2 ^ 53)%Z
         ∧ (-1074 ≤ e ≤ 971)%Z.

(** * The signaling relay *)

Module Relay.

(** [{ host, viewer, createdAt }], the values of the [rooms] map. *)
Record Room := mkRoom {
  host : string;
  viewer : option string;
  createdAt : Z
}.

Inductive Role := host_role | viewer_role.

(** [{ code, role }], the values of the [peers] map. *)
Record Peer := mkPeer {
  code : string;
  role : Role
}.

(** The two module-level maps: [rooms] keyed by sharing code, [peers] keyed
    by socket id. *)
Record State := mkState {
  rooms : gmap string Room;
  peers : gmap string Peer
}.

Definition init : State := mkState ∅ ∅.

(** What a handler sends out: [io.to(target).emit(event, ...)] and the
    acknowledgement [callback({...})]. *)
Inductive Payload :=
| no_payload
| socket_payload (id : string)
| signal_payload (body : string) (from : string).

Inductive Reply :=
| reply_code (code : string)          (* { success: true, code }        *)
| reply_host (hostId : string)        (* { success: true, hostId }      *)
| reply_failure (message : string).   (* { success: false, message }    *)

Inductive Out :=
| emit_to (target : string) (event : string) (data : Payload)
| callback (r : Reply).

(** [Math.floor(Math.random() * 900 + 100)] for the number [rnd] that
    [Math.random()] returned: the product and the sum are each rounded to a
    double, and the floor of a double is exact. *)
Definition random_part (rnd : Q) : Z :=
  Qfloor (to_double (to_double (rnd * 900) + 100))%Q.

(** What [Math.random()] returns: a double of the interval from 0 to 1,
    1 left out. *)
Definition random_draw (rnd : Q) : Prop :=
  is_double rnd ∧ (0 <= rnd)%Q ∧ (rnd < 1)%Q.

Definition generateSharingCode (rnd1 rnd2 rnd3 : Q) : string :=
  let part1 := random_part rnd1 in
  let part2 := random_part rnd2 in
  let part3 := random_part rnd3 in
  number_to_string part1 ++ "-" ++ number_to_string part2 ++ "-"
    ++ number_to_string part3.

(** [socket.on('generate-code', callback)] for the socket [sid]; the three
    random numbers and [Date.now()] are inputs. [socket.join(code)] is left
    out here and in [join-room]: nothing is ever emitted to a code. *)
Definition on_generate_code (sid : string) (rnd1 rnd2 rnd3 : Q) (now : Z)
    (s : State) : State * list Out :=
  let code := generateSharingCode rnd1 rnd2 rnd3 in
  (mkState (<[code := mkRoom sid None now]> (rooms s))
           (<[sid := mkPeer code host_role]> (peers s)),
   [callback (reply_code code)]).

(** [socket.on('join-room', (code, callback))]. *)
Definition on_join_room (sid : string) (code : string) (s : State)
    : State * list Out :=
  match rooms s !! code with
  | None => (s, [callback (reply_failure "Invalid sharing code")])
  | Some room =>
      if truthy (viewer room) then
        (s, [callback (reply_failure "Room is full")])
      else
        (mkState (<[code := mkRoom (host room) (Some sid) (createdAt room)]> (rooms s))
                 (<[sid := mkPeer code viewer_role]> (peers s)),
         [emit_to (host room) "viewer-joined" (socket_payload sid);
          callback (reply_host (host room))])
  end.

(** The three forwarding handlers [offer], [answer], [ice-candidate]:
    the payload goes to [data.to] with the sender attached. *)
Definition on_signal (kind : string) (sid : string) (to : string)
    (body : string) (s : State) : State * list Out :=
  (s, [emit_to to kind (signal_payload body sid)]).

(** [socket.on('disconnect')]. *)
Definition on_disconnect (sid : string) (s : State) : State * list Out :=
  match peers s !! sid with
  | None => (s, [])
  | Some peer =>
      match rooms s !! code peer with
      | None => (mkState (rooms s) (delete sid (peers s)), [])
      | Some room =>
          if decide (host room = sid) then
            (mkState (delete (code peer) (rooms s)) (delete sid (peers s)),
             match viewer room with
             | Some v => if truthy (Some v)
                         then [emit_to v "host-disconnected" no_payload]
                         else []
             | None => []
             end)
          else if decide (viewer room = Some sid) then
            (mkState (<[code peer := mkRoom (host room) None (createdAt room)]> (rooms s))
                     (delete sid (peers s)),
             [emit_to (host room) "viewer-disconnected" no_payload])
          else
            (mkState (rooms s) (delete sid (peers s)), [])
      end
  end.

Definition ONE_HOUR : Z := 60 * 60 * 1000.

(** The body of the clean-up timer: every entry of [rooms] is visited once
    and deleted when older than an hour. *)
Definition cleanup (now : Z) (s : State) : State :=
  mkState
    (map_fold (fun code room acc =>
                 if decide (now - createdAt room > ONE_HOUR)
                 then delete code acc else acc)
              (rooms s) (rooms s))
    (peers s).

(** The messages and timer firings the relay reacts to. *)
Inductive Event :=
| ev_generate_code (sid : string) (rnd1 rnd2 rnd3 : Q) (now : Z)
| ev_join_room (sid : string) (code : string)
| ev_signal (kind : string) (sid : string) (to : string) (body : string)
| ev_disconnect (sid : string)
| ev_cleanup (now : Z).

Definition step (e : Event) (s : State) : State * list Out :=
  match e with
  | ev_generate_code sid r1 r2 r3 now => on_generate_code sid r1 r2 r3 now s
  | ev_join_room sid code => on_join_room sid code s
  | ev_signal kind sid to body => on_signal kind sid to body s
  | ev_disconnect sid => on_disconnect sid s
  | ev_cleanup now => (cleanup now s, [])
  end.

(** The state after a sequence of events, oldest first. *)
Definition run (es : list Event) (s : State) : State :=
  fold_left (fun st e => fst (step e st)) es s.

(** Socket.IO gives every connection a non-empty id. *)
Definition sender_ok (e : Event) : Prop :=
  match e with
  | ev_generate_code sid _ _ _ _ | ev_join_room sid _
  | ev_signal _ sid _ _ | ev_disconnect sid => sid ≠ ""
  | ev_cleanup _ => True
  end.

Inductive reachable : State → Prop :=
| reachable_init : reachable init
| reachable_step s e :
    reachable s → sender_ok e → reachable (fst (step e s)).

(** ** Vocabulary of the relay's properties *)

(** Every socket id held in a viewer slot is a non-empty string. *)
Definition viewers_nonempty (s : State) : Prop :=
  ∀ c room v, rooms s !! c = Some room → viewer room = Some v → v ≠ "".

(** The event is a [generate-code] request whose draw yields the code [c]. *)
Definition creates (c : string) (e : Event) : Prop :=
  match e with
  | ev_generate_code _ rnd1 rnd2 rnd3 _ => generateSharingCode rnd1 rnd2 rnd3 = c
  | _ => False
  end.

(** The specification's reading of [createRoom]: the code handed back to the
    requester is not the code of a room that is live when the request
    arrives. *)
Definition replies_fresh_code (sid : string) (rnd1 rnd2 rnd3 : Q) (now : Z)
    (s : State) : Prop :=
  ∀ c, callback (reply_code c) ∈ snd (on_generate_code sid rnd1 rnd2 rnd3 now s) →
       rooms s !! c = None.

(** The specification's reading of a host disconnect: the viewer of the
    host's room is no longer in the peer index afterwards. *)
Definition host_disconnect_unbinds_viewer (h : string) (s : State) : Prop :=
  ∀ p room v,
    peers s !! h = Some p → rooms s !! code p = Some room →
    host room = h → viewer room = Some v →
    peers (fst (on_disconnect h s)) !! v = None.

(** The specification's reading of what follows a host disconnect: whatever
    happens next, a join with the code of the host's room is answered
    "Invalid sharing code". *)
Definition code_stays_closed (h : string) (s : State) : Prop :=
  ∀ p es sid,
    peers s !! h = Some p →
    let s' := run es (fst (on_disconnect h s)) in
    on_join_room sid (code p) s'
    = (s', [callback (reply_failure "Invalid sharing code")]).

(** The specification's reading of a viewer disconnect: when the
    connection held in the viewer slot of a room disconnects, the slot of
    that room is cleared, a join of any new viewer with the room's code
    succeeds, and the room's host is sent "viewer-disconnected", once and
    nothing else. *)
Definition viewer_disconnect_clears_slot (v : string) (s : State) : Prop :=
  ∀ c room,
    rooms s !! c = Some room → viewer room = Some v →
    let s' := fst (on_disconnect v s) in
    rooms s' !! c = Some (mkRoom (host room) None (createdAt room))
    ∧ (∀ v', snd (on_join_room v' c s')
             = [emit_to (host room) "viewer-joined" (socket_payload v');
                callback (reply_host (host room))])
    ∧ snd (on_disconnect v s)
      = [emit_to (host room) "viewer-disconnected" no_payload].

(** ** Sample sessions *)

(** A host has drawn the code 550-100-999 at time 0. *)
Definition one_room : State :=
  run [ev_generate_code "host-1" (1#2) 0 (1023#1024) 0] init.

(** The same room after a viewer has joined it. *)
Definition paired_session : State :=
  run [ev_join_room "viewer-1" "550-100-999"] one_room.

(** ** Vocabulary of further properties *)

Definition is_signal (e : Event) : bool :=
  match e with
  | ev_signal _ _ _ _ => true
  | _ => false
  end.

(** Two hosts have drawn the codes 550-100-999 and 325-550-100, and one
    viewer has joined the first room and then the second. *)
Definition joined_twice : State :=
  run [ev_generate_code "host-2" (1#4) (1#2) 0 5;
       ev_join_room "viewer-1" "325-550-100"] paired_session.

(** The host of [one_room] has joined its own room. *)
Definition self_joined : State :=
  run [ev_join_room "host-1" "550-100-999"] one_room.

End Relay.

(** * The browser client: remote-control transport *)

Module Client.

Local Open Scope list_scope.

(** [remoteControlConfig]. *)
Definition batchInterval : Z := 16.
Definition mouseMoveThrottle : Z := 8.
Definition maxBatchSize : nat := 50.

(** The object literals handed to [queueControlEvent] and
    [sendControlEventImmediate]; [x] and [y] are the coordinates already
    divided by the size of the video rectangle. *)
Inductive ControlEvent :=
| mousemove (x y : Q)
| mousedown (button : Z) (x y : Q)
| mouseup (button : Z) (x y : Q)
| wheel (deltaX deltaY : Q) (deltaMode : Z)
| keydown (key code : string) (ctrlKey shiftKey altKey metaKey : bool)
| keyup (key code : string) (ctrlKey shiftKey altKey metaKey : bool).

(** [{ ...event, timestamp: Date.now() }]. *)
Record Stamped := stamp {
  event : ControlEvent;
  timestamp : Z
}.

(** The values given to [JSON.stringify] before [dataChannel.send]. *)
Inductive Message :=
| batch (events : list Stamped) (timestamp : Z)   (* { type: 'batch', events, timestamp } *)
| single (ev : Stamped).                          (* { ...event, timestamp } *)

(** [RTCDataChannel.readyState]. *)
Inductive ReadyState := connecting | open | closing | closed.

(** [dataChannel && dataChannel.readyState === 'open'], the channel variable
    being [None] for [null]. *)
Definition channel_open (ch : option ReadyState) : bool :=
  match ch with
  | Some open => true
  | _ => false
  end.

(** The part of the page state the control transport reads and writes.
    [dataChannel] is [None] for [null] and otherwise carries the channel's
    [readyState]; [eventBatchInterval] is [None] for [null] and otherwise
    the id given by [setInterval]; [remoteVideo] is [None] when the document
    has no element with id [remoteVideo] and otherwise carries that
    element's [style.cursor]; [listening] tells whether the input listeners
    are attached. *)
Record State := mkState {
  remoteControlEnabled : bool;
  eventBatchQueue : list Stamped;
  eventBatchInterval : option positive;
  dataChannel : option ReadyState;
  lastMouseMoveTime : Z;
  remoteVideo : option string;
  listening : bool
}.

Definition initial : State :=
  mkState false [] None None 0 None false.

Definition set_enabled (b : bool) (s : State) : State :=
  mkState b (eventBatchQueue s) (eventBatchInterval s) (dataChannel s)
          (lastMouseMoveTime s) (remoteVideo s) (listening s).

Definition set_queue (q : list Stamped) (s : State) : State :=
  mkState (remoteControlEnabled s) q (eventBatchInterval s) (dataChannel s)
          (lastMouseMoveTime s) (remoteVideo s) (listening s).

Definition set_interval (t : option positive) (s : State) : State :=
  mkState (remoteControlEnabled s) (eventBatchQueue s) t (dataChannel s)
          (lastMouseMoveTime s) (remoteVideo s) (listening s).

Definition set_channel (ch : option ReadyState) (s : State) : State :=
  mkState (remoteControlEnabled s) (eventBatchQueue s) (eventBatchInterval s)
          ch (lastMouseMoveTime s) (remoteVideo s) (listening s).

Definition set_lastMouseMoveTime (t : Z) (s : State) : State :=
  mkState (remoteControlEnabled s) (eventBatchQueue s) (eventBatchInterval s)
          (dataChannel s) t (remoteVideo s) (listening s).

Definition set_video (v : option string) (s : State) : State :=
  mkState (remoteControlEnabled s) (eventBatchQueue s) (eventBatchInterval s)
          (dataChannel s) (lastMouseMoveTime s) v (listening s).

Definition set_listening (b : bool) (s : State) : State :=
  mkState (remoteControlEnabled s) (eventBatchQueue s) (eventBatchInterval s)
          (dataChannel s) (lastMouseMoveTime s) (remoteVideo s) b.

(** What the user or the peer can observe of a call. *)
Inductive Effect :=
| sent (m : Message)                   (* a message went out on the channel *)
| status (message kind : string).      (* showStatusMessage(message, kind)  *)

(** A call either returns or throws; both leave a state and the effects
    produced so far. *)
Inductive Outcome :=
| returned (s : State) (out : list Effect)
| thrown (s : State) (out : list Effect) (error : string).

Definition state_of (o : Outcome) : State :=
  match o with returned s _ | thrown s _ _ => s end.

Definition effects_of (o : Outcome) : list Effect :=
  match o with returned _ out | thrown _ out _ => out end.

(** [dataChannel.send(...)]: a [TypeError] on [null], an
    [InvalidStateError] on a channel that is not open. *)
Definition channel_send (ch : option ReadyState) (m : Message) (s : State)
    : Outcome :=
  match ch with
  | Some open => returned s [sent m]
  | Some _ => thrown s [] "InvalidStateError"
  | None => thrown s [] "TypeError"
  end.

(** The callback given to [setInterval] in [startEventBatching]. *)
Definition flush (now : Z) (s : State) : Outcome :=
  if (0 <? length (eventBatchQueue s))%nat && channel_open (dataChannel s) then
    let batch_events := take maxBatchSize (eventBatchQueue s) in
    let s := set_queue (drop maxBatchSize (eventBatchQueue s)) s in
    channel_send (dataChannel s) (batch batch_events now) s
  else returned s [].

(** [startEventBatching]; [timer] is the id [setInterval] returns. *)
Definition startEventBatching (timer : positive) (s : State) : State :=
  match eventBatchInterval s with
  | Some _ => s
  | None => set_interval (Some timer) s
  end.

Definition stopEventBatching (s : State) : State :=
  match eventBatchInterval s with
  | Some _ => set_queue [] (set_interval None s)
  | None => s
  end.

Definition queueControlEvent (ev : ControlEvent) (now : Z) (s : State) : State :=
  set_queue (eventBatchQueue s ++ [stamp ev now]) s.

Definition sendControlEventImmediate (ev : ControlEvent) (now : Z) (s : State)
    : Outcome :=
  if channel_open (dataChannel s) then
    channel_send (dataChannel s) (single (stamp ev now)) s
  else returned s [].

(** [toggleRemoteControl(enabled)]. *)
Definition toggleRemoteControl (enabled : bool) (timer : positive) (s : State)
    : State * list Effect :=
  let s := set_enabled enabled s in
  match remoteVideo s with
  | None => (s, [])
  | Some _ =>
      if enabled then
        let s := startEventBatching timer s in
        let s := set_listening true s in
        let s := set_video (Some "none") s in
        (s, [status "🎮 Remote control enabled" "success"])
      else
        let s := stopEventBatching s in
        let s := set_listening false s in
        let s := set_video (Some "default") s in
        (s, [status "Remote control disabled" "info"])
  end.

(** The input handlers. [handleMouseMove] reads the clock twice: [now] is
    the [Date.now()] of the handler, which the throttle compares and
    remembers, and [stamped] is the [Date.now()] that [queueControlEvent]
    reads afterwards for the time stamp of the event. *)
Definition handleMouseMove (x y : Q) (now stamped : Z) (s : State) : State :=
  if negb (remoteControlEnabled s) then s
  else if (now - lastMouseMoveTime s <? mouseMoveThrottle)%Z then s
  else queueControlEvent (mousemove x y) stamped (set_lastMouseMoveTime now s).

Definition handleMouseWheel (deltaX deltaY : Q) (deltaMode : Z) (now : Z)
    (s : State) : State :=
  if negb (remoteControlEnabled s) then s
  else queueControlEvent (wheel deltaX deltaY deltaMode) now s.

Definition handleMouseDown (button : Z) (x y : Q) (now : Z) (s : State)
    : Outcome :=
  if negb (remoteControlEnabled s) then returned s []
  else sendControlEventImmediate (mousedown button x y) now s.

Definition handleMouseUp (button : Z) (x y : Q) (now : Z) (s : State)
    : Outcome :=
  if negb (remoteControlEnabled s) then returned s []
  else sendControlEventImmediate (mouseup button x y) now s.

Definition handleKeyDown (key code : string)
    (ctrlKey shiftKey altKey metaKey : bool) (now : Z) (s : State) : Outcome :=
  if negb (remoteControlEnabled s) then returned s []
  else if String.eqb key "F5" || (ctrlKey && String.eqb key "r") then returned s []
  else if String.eqb key "F11" then returned s []
  else if String.eqb key "F12" then returned s []
  else sendControlEventImmediate
         (keydown key code ctrlKey shiftKey altKey metaKey) now s.

Definition handleKeyUp (key code : string)
    (ctrlKey shiftKey altKey metaKey : bool) (now : Z) (s : State) : Outcome :=
  if negb (remoteControlEnabled s) then returned s []
  else sendControlEventImmediate
         (keyup key code ctrlKey shiftKey altKey metaKey) now s.

(** [channel.onclose] as installed by [setupDataChannel]. *)
Definition onclose (timer : positive) (s : State) : State * list Effect :=
  if remoteControlEnabled s then toggleRemoteControl false timer s
  else (s, []).

(** The part of [disconnectFromRemote] that touches the control state:
    control is switched off when it was on, batching is stopped, the
    channel is closed and forgotten, the display is emptied. *)
Definition disconnectFromRemote (timer : positive) (s : State)
    : State * list Effect :=
  let '(s, out) :=
    if remoteControlEnabled s then toggleRemoteControl false timer s
    else (s, []) in
  let s := stopEventBatching s in
  let s := set_channel None s in
  let s := set_video None s in
  (s, out).

(** What can happen to the page, one call at a time. *)
Inductive Action :=
| act_toggle (enabled : bool) (timer : positive)
| act_tick (now : Z)
| act_mousemove (x y : Q) (now stamped : Z)
| act_wheel (deltaX deltaY : Q) (deltaMode : Z) (now : Z)
| act_mousedown (button : Z) (x y : Q) (now : Z)
| act_mouseup (button : Z) (x y : Q) (now : Z)
| act_keydown (key code : string) (ctrlKey shiftKey altKey metaKey : bool) (now : Z)
| act_keyup (key code : string) (ctrlKey shiftKey altKey metaKey : bool) (now : Z)
| act_channel (ch : option ReadyState)
| act_onclose (timer : positive)
| act_video (present : bool)
| act_disconnect (timer : positive).

Definition of_pair (r : State * list Effect) : Outcome :=
  returned (fst r) (snd r).

(** The interval callback runs only while the timer is registered;
    [act_channel] stands for the channel variable being assigned or the
    channel changing its [readyState]; [act_video] for the display being
    rebuilt with or without the remote video element. *)
Definition step (a : Action) (s : State) : Outcome :=
  match a with
  | act_toggle enabled timer => of_pair (toggleRemoteControl enabled timer s)
  | act_tick now =>
      match eventBatchInterval s with
      | Some _ => flush now s
      | None => returned s []
      end
  | act_mousemove x y now stamped =>
      returned (handleMouseMove x y now stamped s) []
  | act_wheel dx dy mode now => returned (handleMouseWheel dx dy mode now s) []
  | act_mousedown b x y now => handleMouseDown b x y now s
  | act_mouseup b x y now => handleMouseUp b x y now s
  | act_keydown k c ct sh al me now => handleKeyDown k c ct sh al me now s
  | act_keyup k c ct sh al me now => handleKeyUp k c ct sh al me now s
  | act_channel ch => returned (set_channel ch s) []
  | act_onclose timer => of_pair (onclose timer s)
  | act_video present =>
      returned (set_video (if present then Some "" else None) s) []
  | act_disconnect timer => of_pair (disconnectFromRemote timer s)
  end.

(** The state and the effects, oldest first, of a sequence of actions. An
    exception ends the call that raised it, not the page. *)
Fixpoint run (acts : list Action) (s : State) : State * list Effect :=
  match acts with
  | [] => (s, [])
  | a :: acts =>
      let o := step a s in
      let '(s', out) := run acts (state_of o) in
      (s', effects_of o ++ out)
  end.

Definition enables (a : Action) : Prop :=
  match a with
  | act_toggle true _ => True
  | _ => False
  end.

Definition is_batch (e : Effect) : bool :=
  match e with
  | sent (batch _ _) => true
  | _ => false
  end.

Definition is_sent (e : Effect) : bool :=
  match e with
  | sent _ => true
  | status _ _ => false
  end.

(** Control is off, no flush timer is registered, nothing is queued. *)
Definition switched_off (s : State) : Prop :=
  remoteControlEnabled s = false
  ∧ eventBatchInterval s = None
  ∧ eventBatchQueue s = [].

(** The specification's reading of disabling: whatever the page looks like,
    switching control off empties the queue and no later tick sends a
    batch. *)
Definition disable_drops_and_silences (timer : positive) (s : State) : Prop :=
  let s' := fst (toggleRemoteControl false timer s) in
  eventBatchQueue s' = []
  ∧ ∀ now, List.filter is_batch (effects_of (step (act_tick now) s')) = [].

(** ** Sample page states *)

(** Control is on, the timer runs, two moves are queued, the channel is
    open and the remote video is shown. *)
Definition controlling : State :=
  mkState true [stamp (mousemove (1#4) (1#2)) 100; stamp (mousemove (1#2) (1#2)) 110]
          (Some 7%positive) (Some open) 110 (Some "none") true.

(** The same, after the display was rebuilt without the remote video. *)
Definition controlling_without_video : State :=
  set_video None controlling.

(** ** Vocabulary of further properties *)

(** Control is off and no flush timer is registered. *)
Definition control_off (s : State) : Prop :=
  remoteControlEnabled s = false ∧ eventBatchInterval s = None.

(** The events a sent batch carries; nothing for any other effect. *)
Definition batch_events (e : Effect) : list Stamped :=
  match e with
  | sent (batch events _) => events
  | _ => []
  end.

(** The action is a timer tick or a wheel event. *)
Definition tick_or_wheel (a : Action) : Prop :=
  match a with
  | act_tick _ | act_wheel _ _ _ _ => True
  | _ => False
  end.

(** The wheel events of a sequence of actions, stamped, in their order. *)
Definition wheel_stamps (acts : list Action) : list Stamped :=
  flat_map (fun a => match a with
                     | act_wheel dx dy mode now => [stamp (wheel dx dy mode) now]
                     | _ => []
                     end) acts.

(** A mouse move as [handleMouseMove] takes it: the coordinates and the
    two clock values. *)
Record Move := mkMove {
  move_x : Q;
  move_y : Q;
  move_now : Z;
  move_stamped : Z
}.


Definition handle_moves (moves : list Move) (s : State) : State :=
  fold_left (fun st m => handleMouseMove (move_x m) (move_y m) (move_now m)
                           (move_stamped m) st) moves s.


(** Two moves that pass the throttle, the first one stamped a millisecond
    after the throttle read the clock. *)
Definition late_stamp_moves : list Move :=
  [mkMove (1#4) (1#2) 100 101; mkMove (1#2) (1#2) 108 108].

(** The keys whose key-down [handleKeyDown] leaves to the browser. *)
Definition browser_shortcut (key : string) (ctrlKey : bool) : Prop :=
  key = "F5" ∨ (ctrlKey = true ∧ key = "r") ∨ key = "F11" ∨ key = "F12".

End Client.

(** * The browser client: text functions *)

Module Text.

Local Open Scope list_scope.

(** A JavaScript string is handled as the list of its characters. The
    patterns below only name ASCII characters, and a character outside
    ASCII is no digit in either encoding. *)
Definition chars (s : string) : list ascii := String.list_ascii_of_string s.
Definition str (l : list ascii) : string := String.string_of_list_ascii l.

Definition CRLF : list ascii := [ascii_of_nat 13; ascii_of_nat 10].

(** The character class [\d]. *)
Definition is_digit (c : ascii) : bool :=
  let n := nat_of_ascii c in (48 <=? n)%nat && (n <=? 57)%nat.

(** Every character of [l] is a digit. *)
Definition all_digits (l : list ascii) : Prop :=
  Forall (fun c => is_digit c = true) l.

(** [s.slice(a, b)] for [0 <= a]. *)
Definition slice (a b : nat) (s : list ascii) : list ascii :=
  take (b - a) (drop a s).

(** The body of [formatSharingCode] on the characters of [value];
    [value.replace(/\D/g, '')] keeps the digits. *)
Definition format_chars (value : list ascii) : list ascii :=
  let digits := List.filter is_digit value in
  if (length digits <=? 3)%nat then digits
  else if (length digits <=? 6)%nat then
    slice 0 3 digits ++ chars "-" ++ drop 3 digits
  else
    slice 0 3 digits ++ chars "-" ++ slice 3 6 digits ++ chars "-"
      ++ slice 6 9 digits.

Definition formatSharingCode (value : string) : string :=
  str (format_chars (chars value)).

(** ** Global replacement with the two patterns of [optimizeSDPForLatency] *)

Fixpoint strip_prefix (p s : list ascii) : option (list ascii) :=
  match p, s with
  | [], _ => Some s
  | a :: p', b :: s' => if Ascii.eqb a b then strip_prefix p' s' else None
  | _ :: _, [] => None
  end.

(** The longest run of digits at the head of [s], and what follows it. *)
Fixpoint span_digits (s : list ascii) : list ascii * list ascii :=
  match s with
  | c :: s' =>
      if is_digit c then
        let '(ds, rest) := span_digits s' in (c :: ds, rest)
      else ([], s)
  | [] => ([], [])
  end.

(** A pattern [prefix(\d+)suffix] tried at the head of [s]: the text of the
    capture group and the length of the whole match. Both suffixes in use
    start with a space, so only the longest run of digits can be followed
    by the suffix and no shorter run has to be tried. *)
Definition match_here (prefix suffix : string) (s : list ascii)
    : option (list ascii * nat) :=
  match strip_prefix (chars prefix) s with
  | Some rest =>
      let '(ds, rest') := span_digits rest in
      match ds, strip_prefix (chars suffix) rest' with
      | _ :: _, Some _ =>
          Some (ds, (length (chars prefix) + length ds + length (chars suffix))%nat)
      | _, _ => None
      end
  | None => None
  end.

(** [s.replace(/.../g, replacement)]: the text is scanned from the left;
    where the pattern matches, the replacement built from the capture group
    is written and the scan goes on behind the match ([skip] counts the
    characters of the match still to pass over); any other character is
    copied. *)
Fixpoint replace_from (pattern : list ascii → option (list ascii * nat))
    (replacement : list ascii → list ascii) (skip : nat) (s : list ascii)
    : list ascii :=
  match s with
  | [] => []
  | c :: rest =>
      match skip with
      | S k => replace_from pattern replacement k rest
      | O =>
          match pattern s with
          | Some (group, len) =>
              replacement group ++ replace_from pattern replacement (pred len) rest
          | None => c :: replace_from pattern replacement 0 rest
          end
      end
  end.

Definition replace_all (pattern : list ascii → option (list ascii * nat))
    (replacement : list ascii → list ascii) (s : list ascii) : list ascii :=
  replace_from pattern replacement 0 s.

(** Whether [needle] occurs in [hay] as a substring. *)
Fixpoint occurs (needle hay : list ascii) : bool :=
  match strip_prefix needle hay with
  | Some _ => true
  | None =>
      match hay with
      | [] => false
      | _ :: hay' => occurs needle hay'
      end
  end.

(** [/a=fmtp:(\d+) /g] and its replacement
    ['a=fmtp:$1 x-google-max-bitrate=10000;...']. *)
Definition fmtp_pattern := match_here "a=fmtp:" " ".
Definition fmtp_replacement (g : list ascii) : list ascii :=
  chars "a=fmtp:" ++ g
    ++ chars " x-google-max-bitrate=10000;x-google-min-bitrate=2000;x-google-start-bitrate=5000;".

(** [/a=rtpmap:(\d+) H264/g] and its replacement
    ['a=rtpmap:$1 H264\r\na=fmtp:$1 profile-level-id=...']. *)
Definition h264_pattern := match_here "a=rtpmap:" " H264".
Definition h264_replacement (g : list ascii) : list ascii :=
  chars "a=rtpmap:" ++ g ++ chars " H264" ++ CRLF ++ chars "a=fmtp:" ++ g
    ++ chars " profile-level-id=42e01f;level-asymmetry-allowed=1;packetization-mode=1".

(** [optimizeSDPForLatency]; on a string neither [replace] throws, so the
    [catch] branch is not taken. *)
Definition optimizeSDPForLatency (sdp : string) : string :=
  let modifiedSdp := replace_all fmtp_pattern fmtp_replacement (chars sdp) in
  let modifiedSdp := replace_all h264_pattern h264_replacement modifiedSdp in
  str modifiedSdp.

(** ** A sample descriptor *)

(** The lines of a descriptor, each ended by CR LF. *)
Definition sdp_of_lines (lines : list string) : string :=
  str (concat (map (fun l => chars l ++ CRLF) lines)).

(** A video section with one H264 payload-type mapping line and its one
    format-parameter line. *)
Definition sample_offer : string :=
  sdp_of_lines
    ["m=video 9 UDP/TLS/RTP/SAVPF 96";
     "a=rtpmap:96 H264/90000";
     "a=fmtp:96 level-asymmetry-allowed=1;packetization-mode=1;profile-level-id=42001f"].

(** ** Validation of a typed code and the connect button *)

(** The character class [\s] on a UTF-16 code unit: the white space and
    line terminator characters of ECMAScript. *)
Definition is_space_unit (u : N) : bool :=
  ((9 <=? u) && (u <=? 13) || (u =? 32) || (u =? 160) || (u =? 5760)
   || (8192 <=? u) && (u <=? 8202) || (u =? 8232) || (u =? 8233)
   || (u =? 8239) || (u =? 8287) || (u =? 12288) || (u =? 65279))%N.

(** The same on a character of this model, a code unit below 256. *)
Definition is_space (c : ascii) : bool := is_space_unit (N_of_ascii c).

Definition is_dash (c : ascii) : bool := Ascii.eqb c "-".

(** [/^\d{3}-\d{3}-\d{3}$|^\d{9}$/.test(s)]. *)
Definition pattern_test (s : list ascii) : bool :=
  match s with
  | [a; b; c; m; d; e; f; n; g; h; i] =>
      forallb is_digit [a; b; c; d; e; f; g; h; i] && is_dash m && is_dash n
  | [a; b; c; d; e; f; g; h; i] =>
      forallb is_digit [a; b; c; d; e; f; g; h; i]
  | _ => false
  end.

(** [validateSharingCode]; [code.replace(/\s/g, '')] drops the white
    space. *)
Definition validateSharingCode (code : string) : bool :=
  let cleanCode := List.filter (fun c => negb (is_space c)) (chars code) in
  pattern_test cleanCode.

Fixpoint drop_spaces (s : list ascii) : list ascii :=
  match s with
  | c :: s' => if is_space c then drop_spaces s' else s
  | [] => []
  end.

(** [s.trim()]. *)
Definition trim (s : list ascii) : list ascii :=
  rev (drop_spaces (rev (drop_spaces s))).

(** What the click handler of the connect button does with the text of the
    input field: a status message, or [connectAsViewer(code)], which emits
    [join-room] with the code. *)
Inductive ConnectOutcome :=
| connect_status (message kind : string)
| connect_join (code : string).

Definition on_connect_click (value : string) (isConnected : bool)
    : ConnectOutcome :=
  let code := str (trim (chars value)) in
  if String.eqb code "" then
    connect_status "Please enter a sharing code" "error"
  else if negb (validateSharingCode code) then
    connect_status "Invalid sharing code format. Please use XXX-XXX-XXX format." "error"
  else if isConnected then
    connect_status "Already connected. Disconnect first to connect to a different screen." "info"
  else connect_join code.

(** The text of the input field after the [input] listener has run on what
    the user typed or pasted. *)
Definition on_input (value : string) : string := formatSharingCode value.

(** A text of the shape DDD-DDD-DDD. *)
Definition dashed_code (l : list ascii) : Prop :=
  ∃ a b c d e f g h i,
    l = [a; b; c; "-"%char; d; e; f; "-"%char; g; h; i]
    ∧ all_digits [a; b; c; d; e; f; g; h; i].

End Text.

(** * Rounding to a double *)

Module DoubleFacts.

Local Open Scope Q_scope.

Lemma pow2_pos (e : Z) : 0 < pow2 e.
Proof. apply Qpower_0_lt. reflexivity. Qed.

Lemma pow2_add (a b : Z) : pow2 (a + b) == pow2 a * pow2 b.
Proof. apply Qpower_plus. discriminate. Qed.

Lemma pow2_opp (a : Z) : pow2 (- a) == / pow2 a.
Proof. apply Qpower_opp. Qed.

Lemma pow2_le (a b : Z) : (a <= b)%Z → pow2 a <= pow2 b.
Proof. intros H. apply Qpower_le_compat_l; [exact H | discriminate]. Qed.

Lemma pow2_lt (a b : Z) : (a < b)%Z → pow2 a < pow2 b.
Proof. intros H. apply Qpower_lt_compat_l; [exact H | reflexivity]. Qed.

Lemma pow2_Z (e : Z) : (0 <= e)%Z → pow2 e == inject_Z (2 ^ e).
Proof. intros H. unfold pow2. by rewrite Zpower_Qpower. Qed.

Lemma ilog2_raw_bounds (p : Z) (q : positive) :
  (0 < p)%Z →
  let d := (Z.log2 p - Z.log2 (Zpos q))%Z in
  pow2 (d - 1) < p # q ∧ p # q < pow2 (d + 1).
Proof.
  intros Hp d.
  pose proof (Z.log2_spec p Hp) as [Ha1 Ha2].
  pose proof (Z.log2_spec (Zpos q) eq_refl) as [Hb1 Hb2].
  pose proof (Z.log2_nonneg p) as Ha0.
  pose proof (Z.log2_nonneg (Zpos q)) as Hb0.
  set (a := Z.log2 p) in *. set (b := Z.log2 (Zpos q)) in *.
  assert (HQ : 0 < inject_Z (Zpos q)) by reflexivity.
  assert (HA1 : pow2 a <= inject_Z p).
  { rewrite pow2_Z by done. by rewrite <- Zle_Qle. }
  assert (HA2 : inject_Z p < pow2 (a + 1)).
  { rewrite pow2_Z by lia. by rewrite <- Zlt_Qlt. }
  assert (HB1 : pow2 b <= inject_Z (Zpos q)).
  { rewrite pow2_Z by done. by rewrite <- Zle_Qle. }
  assert (HB2 : inject_Z (Zpos q) < pow2 (b + 1)).
  { rewrite pow2_Z by lia. by rewrite <- Zlt_Qlt. }
  rewrite (Qmake_Qdiv p q). split.
  - apply Qlt_shift_div_l; [exact HQ|].
    apply Qlt_le_trans with (pow2 (d - 1) * pow2 (b + 1)).
    + apply Qmult_lt_l; [apply pow2_pos | exact HB2].
    + rewrite <- pow2_add. replace (d - 1 + (b + 1))%Z with a by (subst d; lia).
      exact HA1.
  - apply Qlt_shift_div_r; [exact HQ|].
    apply Qlt_le_trans with (pow2 (d + 1) * pow2 b).
    + rewrite <- pow2_add. replace (d + 1 + b)%Z with (a + 1)%Z by (subst d; lia).
      exact HA2.
    + apply Qmult_le_l; [apply pow2_pos | exact HB1].
Qed.

(** [ilog2 x] is the exponent of the binade of [x]. *)
Lemma ilog2_spec (x : Q) :
  0 < x → pow2 (ilog2 x) <= x ∧ x < pow2 (ilog2 x + 1).
Proof.
  intros Hx. destruct x as [p q].
  assert (Hp : (0 < p)%Z).
  { unfold Qlt in Hx. simpl in Hx. lia. }
  destruct (ilog2_raw_bounds p q Hp) as [Hlo Hhi].
  unfold ilog2. cbn [Qnum Qden].
  set (d := (Z.log2 p - Z.log2 (Zpos q))%Z) in *.
  destruct (Qle_bool (pow2 d) (p # q)) eqn:E.
  - apply Qle_bool_iff in E. by split.
  - split; [by apply Qlt_le_weak|].
    replace (d - 1 + 1)%Z with d by lia.
    apply Qnot_le_lt. intros H. apply Qle_bool_iff in H. congruence.
Qed.

Lemma ilog2_unique (x : Q) (k : Z) :
  pow2 k <= x → x < pow2 (k + 1) → ilog2 x = k.
Proof.
  intros Hlo Hhi.
  assert (Hx : 0 < x) by (eapply Qlt_le_trans; [apply pow2_pos | exact Hlo]).
  destruct (ilog2_spec x Hx) as [Hlo' Hhi'].
  destruct (Z.lt_trichotomy (ilog2 x) k) as [H|[H|H]]; [|done|].
  - exfalso. assert (Hle : pow2 (ilog2 x + 1) <= pow2 k) by (apply pow2_le; lia).
    apply (Qlt_irrefl x). eapply Qlt_le_trans; [exact Hhi'|].
    eapply Qle_trans; [exact Hle | exact Hlo].
  - exfalso. assert (Hle : pow2 (k + 1) <= pow2 (ilog2 x)) by (apply pow2_le; lia).
    apply (Qlt_irrefl x). eapply Qlt_le_trans; [exact Hhi|].
    eapply Qle_trans; [exact Hle | exact Hlo'].
Qed.

(** ** Rounding to the nearest integer *)

Lemma round_half_even_ge_floor (y : Q) : (Qfloor y <= round_half_even y)%Z.
Proof.
  unfold round_half_even.
  destruct (y - inject_Z (Qfloor y) ?= 1 # 2); try lia.
  destruct (Z.even (Qfloor y)); lia.
Qed.

Lemma round_half_even_le (y : Q) (k : Z) :
  y <= inject_Z k → (round_half_even y <= k)%Z.
Proof.
  intros Hy.
  assert (Hf : (Qfloor y <= k)%Z).
  { rewrite <- (Qfloor_Z k). by apply Qfloor_resp_le. }
  unfold round_half_even.
  destruct (Z.eq_dec (Qfloor y) k) as [E|E].
  - rewrite E.
    assert (Hlt : y - inject_Z k < 1 # 2) by lra.
    rewrite (proj1 (Qlt_alt _ _) Hlt). lia.
  - destruct (y - inject_Z (Qfloor y) ?= 1 # 2); try lia.
    destruct (Z.even (Qfloor y)); lia.
Qed.

Lemma Qfloor_unique (y : Q) (k : Z) :
  inject_Z k <= y → y < inject_Z k + 1 → Qfloor y = k.
Proof.
  intros Hlo Hhi.
  pose proof (Qfloor_le y) as H1. pose proof (Qlt_floor y) as H2.
  assert (Hk1 : (k <= Qfloor y)%Z).
  { rewrite <- (Qfloor_Z k). by apply Qfloor_resp_le. }
  assert (Hk2 : (Qfloor y < k + 1)%Z).
  { rewrite Zlt_Qlt, inject_Z_plus. change (inject_Z 1) with 1. lra. }
  lia.
Qed.

Lemma round_half_even_below_half (y : Q) (k : Z) :
  inject_Z k <= y → y < inject_Z k + (1 # 2) → round_half_even y = k.
Proof.
  intros Hlo Hhi. unfold round_half_even.
  rewrite (Qfloor_unique y k) by lra.
  assert (Hlt : y - inject_Z k < 1 # 2) by lra.
  by rewrite (proj1 (Qlt_alt _ _) Hlt).
Qed.

(** ** Rounding to a double *)

(** A multiple of [pow2 f] is a multiple of [pow2 e] for every [e <= f]. *)
Lemma multiple_of_finer (m e f : Z) :
  (e <= f)%Z →
  inject_Z m * pow2 f == inject_Z (m * 2 ^ (f - e)) * pow2 e.
Proof.
  intros H. rewrite inject_Z_mult, <- pow2_Z by lia.
  rewrite <- Qmult_assoc, <- pow2_add.
  by replace (f - e + e)%Z with f by lia.
Qed.

Lemma double_below_pow2 (m f : Z) :
  (Z.abs m < 2 ^ 53)%Z → inject_Z m * pow2 f < pow2 (f + 53).
Proof.
  intros Hm. rewrite Z.add_comm, pow2_add.
  apply Qmult_lt_r; [apply pow2_pos|].
  rewrite pow2_Z by lia. rewrite <- Zlt_Qlt. lia.
Qed.

Lemma round_pos_scaled (x : Q) :
  0 < x →
  let e := Z.max (ilog2 x - 52) (-1074) in
  round_pos x == inject_Z (round_half_even (x / pow2 e)) * pow2 e
  ∧ ((-1074 < e)%Z → pow2 (e + 52) <= x).
Proof.
  intros Hx e. split; [reflexivity|].
  intros He. replace (e + 52)%Z with (ilog2 x) by (subst e; lia).
  by apply ilog2_spec.
Qed.

(** A double below [x] is below what [x] rounds to. *)
Lemma round_pos_ge (x a : Q) :
  0 < x → is_double a → a <= x → a <= round_pos x.
Proof.
  intros Hx (m & f & Ha & Hm & Hf) Hax.
  destruct (round_pos_scaled x Hx) as [Hr Hbin]. cbv zeta in Hr, Hbin.
  set (e := Z.max (ilog2 x - 52) (-1074)) in *.
  set (n := round_half_even (x / pow2 e)) in *.
  rewrite Hr. pose proof (pow2_pos e) as Hu.
  pose proof (round_half_even_ge_floor (x / pow2 e)) as Hn. fold n in Hn.
  destruct (Z_le_gt_dec e f) as [Hef|Hef].
  - rewrite Ha, (multiple_of_finer m e f Hef).
    apply Qmult_le_r; [exact Hu|]. rewrite <- Zle_Qle.
    etrans; [|exact Hn]. rewrite <- (Qfloor_Z (m * 2 ^ (f - e))).
    apply Qfloor_resp_le. apply Qle_shift_div_l; [exact Hu|].
    by rewrite <- (multiple_of_finer m e f Hef), <- Ha.
  - assert (He : (-1074 < e)%Z) by lia. specialize (Hbin He).
    apply Qle_trans with (pow2 (e + 52)).
    + rewrite Ha. apply Qlt_le_weak.
      eapply Qlt_le_trans; [by apply double_below_pow2|]. apply pow2_le. lia.
    + rewrite Z.add_comm, pow2_add.
      apply Qmult_le_r; [exact Hu|]. rewrite pow2_Z by lia. rewrite <- Zle_Qle.
      etrans; [|exact Hn]. rewrite <- (Qfloor_Z (2 ^ 52)).
      apply Qfloor_resp_le. apply Qle_shift_div_l; [exact Hu|].
      by rewrite <- pow2_Z, <- pow2_add, Z.add_comm by lia.
Qed.

(** A double above [x] is above what [x] rounds to. *)
Lemma round_pos_le (x b : Q) :
  0 < x → is_double b → x <= b → round_pos x <= b.
Proof.
  intros Hx (m & f & Hb & Hm & Hf) Hxb.
  destruct (round_pos_scaled x Hx) as [Hr Hbin]. cbv zeta in Hr, Hbin.
  set (e := Z.max (ilog2 x - 52) (-1074)) in *.
  rewrite Hr. pose proof (pow2_pos e) as Hu.
  destruct (Z_le_gt_dec e f) as [Hef|Hef].
  - rewrite Hb, (multiple_of_finer m e f Hef).
    apply Qmult_le_r; [exact Hu|]. rewrite <- Zle_Qle.
    apply round_half_even_le. apply Qle_shift_div_r; [exact Hu|].
    by rewrite <- (multiple_of_finer m e f Hef), <- Hb.
  - exfalso. assert (He : (-1074 < e)%Z) by lia. specialize (Hbin He).
    apply (Qlt_irrefl x). eapply Qle_lt_trans; [exact Hxb|]. rewrite Hb.
    eapply Qlt_le_trans; [by apply double_below_pow2|].
    eapply Qle_trans; [|exact Hbin]. apply pow2_le. lia.
Qed.

Lemma round_pos_nonneg (x : Q) : 0 < x → 0 <= round_pos x.
Proof.
  intros Hx. unfold round_pos.
  set (e := Z.max (ilog2 x - 52) (-1074)).
  pose proof (pow2_pos e) as Hu.
  apply Qmult_le_0_compat; [|by apply Qlt_le_weak].
  change 0 with (inject_Z 0). rewrite <- Zle_Qle.
  etrans; [|apply round_half_even_ge_floor].
  rewrite <- (Qfloor_Z 0). apply Qfloor_resp_le.
  apply Qle_shift_div_l; [exact Hu|]. rewrite Qmult_0_l. by apply Qlt_le_weak.
Qed.

Lemma to_double_pos (x : Q) : 0 < x → to_double x = round_pos x.
Proof.
  intros Hx. unfold to_double. by rewrite (proj1 (Qgt_alt _ _) Hx).
Qed.

Lemma to_double_zero (x : Q) : x == 0 → to_double x = 0.
Proof.
  intros Hx. unfold to_double. by rewrite (proj1 (Qeq_alt _ _) Hx).
Qed.

(** The largest double below one is [1 - pow2 (-53)]. *)
Lemma double_below_one (r : Q) :
  is_double r → r < 1 → r <= 1 - pow2 (-53).
Proof.
  intros (m & e & Hr & Hm & He) Hlt.
  assert (H53 : pow2 (-53) == 1 # 9007199254740992) by reflexivity.
  destruct (Z_le_gt_dec (-53) e) as [Hle|Hgt].
  - rewrite (multiple_of_finer m (-53) e Hle) in Hr.
    set (N := (m * 2 ^ (e - -53))%Z) in *.
    assert (HN : (N < 2 ^ 53)%Z).
    { rewrite Zlt_Qlt. apply (Qmult_lt_r _ _ (pow2 (-53))); [apply pow2_pos|].
      rewrite <- Hr. eapply Qlt_le_trans; [exact Hlt|].
      rewrite H53. discriminate. }
    assert (HN' : inject_Z N <= inject_Z (2 ^ 53 - 1)).
    { rewrite <- Zle_Qle. lia. }
    rewrite Hr. apply Qle_trans with (inject_Z (2 ^ 53 - 1) * pow2 (-53)).
    + apply Qmult_le_r; [apply pow2_pos | exact HN'].
    + rewrite H53. discriminate.
  - apply Qle_trans with (pow2 (-1)).
    + rewrite Hr. apply Qlt_le_weak.
      eapply Qlt_le_trans; [by apply double_below_pow2|]. apply pow2_le. lia.
    + rewrite H53. discriminate.
Qed.

(** The three parts of a code are numbers of three digits, in the double
    arithmetic of the program. *)
Lemma random_part_range (rnd : Q) :
  is_double rnd → 0 <= rnd → rnd < 1 → (100 <= Relay.random_part rnd <= 999)%Z.
Proof.
  intros Hd H0 H1.
  pose proof (double_below_one rnd Hd H1) as Hmax.
  assert (H53 : pow2 (-53) == 1 # 9007199254740992) by reflexivity.
  assert (H43 : pow2 (-43) == 1 # 8796093022208) by reflexivity.
  rewrite H53 in Hmax.
  set (b1 := 7916483719987199 # 8796093022208).
  set (b2 := 8796093022207999 # 8796093022208).
  assert (Db1 : is_double b1).
  { exists 7916483719987199%Z, (-43)%Z. repeat split; try done; lia. }
  assert (Db2 : is_double b2).
  { exists 8796093022207999%Z, (-43)%Z. repeat split; try done; lia. }
  assert (D100 : is_double 100).
  { exists 100%Z, 0%Z. repeat split; try done; lia. }
  set (x := rnd * 900).
  assert (Hx0 : 0 <= x) by (subst x; lra).
  assert (Hxmax : x <= 900 - (900 # 9007199254740992)) by (subst x; lra).
  assert (Ht : 0 <= to_double x ∧ to_double x <= b1).
  { destruct (Qlt_le_dec 0 x) as [Hpos|Hnp].
    - rewrite (to_double_pos x Hpos). split; [by apply round_pos_nonneg|].
      destruct (Qlt_le_dec b1 x) as [Hbig|Hsmall]; [|by apply round_pos_le].
      assert (Hlog : ilog2 x = 9%Z).
      { apply ilog2_unique.
        - apply Qle_trans with b1; [discriminate | by apply Qlt_le_weak].
        - eapply Qle_lt_trans; [exact Hxmax | reflexivity]. }
      unfold round_pos. rewrite Hlog.
      change (Z.max (9 - 52) (-1074)) with (-43)%Z.
      rewrite (round_half_even_below_half _ 7916483719987199).
      + rewrite H43. discriminate.
      + apply Qle_shift_div_l; [apply pow2_pos|]. rewrite H43.
        apply Qlt_le_weak. eapply Qle_lt_trans; [|exact Hbig]. discriminate.
      + apply Qlt_shift_div_r; [apply pow2_pos|]. rewrite H43.
        eapply Qle_lt_trans; [exact Hxmax | reflexivity].
    - rewrite (to_double_zero x) by (apply Qle_antisym; done).
      split; discriminate. }
  destruct Ht as [Ht0 Ht1].
  set (t := to_double x) in *.
  assert (Hs : 0 < t + 100) by lra.
  unfold Relay.random_part. fold x. fold t. rewrite (to_double_pos _ Hs).
  split.
  - assert (Hge : 100 <= round_pos (t + 100)).
    { apply round_pos_ge; [done.. |]. lra. }
    exact (Qfloor_resp_le 100 _ Hge).
  - assert (Hle : round_pos (t + 100) <= b2).
    { apply round_pos_le; [done..|]. subst b1 b2. lra. }
    assert (Hlt : (Qfloor (round_pos (t + 100)) < 1000)%Z); [|lia].
    rewrite Zlt_Qlt. eapply Qle_lt_trans; [apply Qfloor_le|].
    eapply Qle_lt_trans; [exact Hle | reflexivity].
Qed.

(** Rounding is seen in the result: for this draw the exact value of
    [rnd * 900 + 100] lies below 551, and the program computes 551. *)
Lemma random_part_rounds_up :
  let rnd := 2256803813271215 # 4503599627370496 in
  is_double rnd ∧ rnd * 900 + 100 < 551 ∧ Relay.random_part rnd = 551%Z.
Proof.
  repeat split.
  exists 2256803813271215%Z, (-52)%Z. repeat split; try reflexivity; discriminate.
Qed.

End DoubleFacts.

(** * Properties of the relay *)

Module RelayFacts.
Import Relay.

(** ** The clean-up timer *)

Lemma cleanup_fold_lookup (now : Z) (m b : gmap string Room) (c : string) :
  map_fold (fun code room acc =>
              if decide (now - createdAt room > ONE_HOUR)
              then delete code acc else acc) b m !! c
  = match m !! c with
    | Some room => if decide (now - createdAt room > ONE_HOUR) then None else b !! c
    | None => b !! c
    end.
Proof.
  revert c.
  apply (map_fold_weak_ind (fun acc m' => ∀ c, acc !! c =
    match m' !! c with
    | Some room => if decide (now - createdAt room > ONE_HOUR) then None else b !! c
    | None => b !! c
    end)).
  - intros c. by rewrite lookup_empty.
  - intros i x m' acc Hfresh IH c.
    destruct (decide (i = c)) as [->|Hne].
    + rewrite lookup_insert_eq. specialize (IH c). rewrite Hfresh in IH.
      case_decide; [by rewrite lookup_delete_eq | done].
    + rewrite (lookup_insert_ne _ _ _ _ Hne).
      case_decide; [rewrite (lookup_delete_ne _ _ _ Hne) |]; apply IH.
Qed.

Lemma cleanup_lookup (now : Z) (s : State) (c : string) :
  rooms (cleanup now s) !! c
  = match rooms s !! c with
    | Some room => if decide (now - createdAt room > ONE_HOUR) then None else Some room
    | None => None
    end.
Proof.
  unfold cleanup; simpl. rewrite cleanup_fold_lookup.
  destruct (rooms s !! c) eqn:E; done.
Qed.

Lemma cleanup_lookup_Some (now : Z) (s : State) (c : string) (room : Room) :
  rooms (cleanup now s) !! c = Some room →
  rooms s !! c = Some room.
Proof.
  rewrite cleanup_lookup. destruct (rooms s !! c); [|done].
  case_decide; [done|]. by intros [= ->].
Qed.

Lemma cleanup_peers (now : Z) (s : State) : peers (cleanup now s) = peers s.
Proof. reflexivity. Qed.

(** The loop computes the filter that keeps the rooms not yet expired. *)
Lemma cleanup_is_filter (now : Z) (s : State) :
  rooms (cleanup now s)
  = filter (fun kv => ¬ now - createdAt (snd kv) > ONE_HOUR) (rooms s).
Proof.
  apply map_eq; intros c. rewrite cleanup_lookup, map_lookup_filter.
  destruct (rooms s !! c) as [room|]; simpl; [|done].
  case_decide; case_guard; simpl in *; done.
Qed.

(** ** Socket ids stored in viewer slots *)

Lemma truthy_Some (v : string) : v ≠ "" → truthy (Some v) = true.
Proof.
  intros Hv; simpl. destruct (String.eqb_spec v ""); [contradiction|done].
Qed.

Lemma step_viewers_nonempty (e : Event) (s : State) :
  sender_ok e → viewers_nonempty s → viewers_nonempty (fst (step e s)).
Proof.
  intros Hok Hs c room v. destruct e as [sid r1 r2 r3 now|sid code'| | sid|now]; simpl.
  - destruct (decide (generateSharingCode r1 r2 r3 = c)) as [->|Hne].
    + rewrite lookup_insert_eq. by intros [= <-].
    + rewrite lookup_insert_ne by done. apply Hs.
  - unfold on_join_room. destruct (rooms s !! code') as [room'|] eqn:E; [|apply Hs].
    destruct (truthy (viewer room')); [apply Hs|]. simpl.
    destruct (decide (code' = c)) as [->|Hne].
    + rewrite lookup_insert_eq. intros [= <-]; simpl. by intros [= <-].
    + rewrite lookup_insert_ne by done. apply Hs.
  - apply Hs.
  - unfold on_disconnect. destruct (peers s !! sid) as [p|]; [|apply Hs].
    destruct (rooms s !! code p) as [room'|] eqn:E; [|apply Hs].
    case_decide; simpl.
    + destruct (decide (code p = c)) as [->|Hne].
      * by rewrite lookup_delete_eq.
      * rewrite lookup_delete_ne by done. apply Hs.
    + case_decide; simpl; [|apply Hs].
      destruct (decide (code p = c)) as [->|Hne].
      * rewrite lookup_insert_eq. by intros [= <-].
      * rewrite lookup_insert_ne by done. apply Hs.
  - intros Hc. apply (Hs c). by apply cleanup_lookup_Some in Hc.
Qed.

Lemma reachable_viewers_nonempty (s : State) :
  reachable s → viewers_nonempty s.
Proof.
  induction 1 as [|s e _ IH Hok].
  - intros c room v. unfold init; simpl. by rewrite lookup_empty.
  - by apply step_viewers_nonempty.
Qed.

Lemma reachable_run (es : list Event) (s : State) :
  reachable s → Forall sender_ok es → reachable (run es s).
Proof.
  revert s. induction es as [|e es IH]; intros s Hs Hes; [done|].
  inversion_clear Hes. simpl. apply IH; [by constructor | done].
Qed.

(** A code without a room stays without one until a request draws it. *)
Lemma step_keeps_absent (c : string) (e : Event) (s : State) :
  rooms s !! c = None → ¬ creates c e → rooms (fst (step e s)) !! c = None.
Proof.
  intros Hc Hne. destruct e as [sid r1 r2 r3 now|sid c'| |sid|now]; simpl in *.
  - by rewrite lookup_insert_ne.
  - unfold on_join_room. destruct (rooms s !! c') as [room|] eqn:E; [|done].
    destruct (truthy (viewer room)); [done|]. simpl.
    rewrite lookup_insert_ne; [done | congruence].
  - done.
  - unfold on_disconnect. destruct (peers s !! sid) as [p|]; [|done].
    destruct (rooms s !! code p) as [room|] eqn:E; [|done].
    repeat case_decide; simpl; try done.
    + rewrite lookup_delete_ne; [done | congruence].
    + rewrite lookup_insert_ne; [done | congruence].
  - change (rooms (cleanup now s) !! c = None).
    rewrite cleanup_lookup. by rewrite Hc.
Qed.

Lemma run_keeps_absent (c : string) (es : list Event) (s : State) :
  rooms s !! c = None → Forall (fun e => ¬ creates c e) es →
  rooms (run es s) !! c = None.
Proof.
  revert s. induction es as [|e es IH]; intros s Hc Hes; [done|].
  inversion_clear Hes. simpl. apply IH; [by apply step_keeps_absent | done].
Qed.

(** ** The claims about the relay *)

(** C7. A clean-up run at time [now] removes a live room exactly when
    [now - createdAt] is strictly greater than one hour, and otherwise
    leaves it as it is. The boundary example holds under both readings of
    "the boundary": a room created one second before [boundary - ONE_HOUR]
    is exactly one hour old at [boundary - 1000] and survives that run, and
    is gone after the run at [boundary + 2000]; and with the boundary taken
    as the room's own expiry instant [createdAt + ONE_HOUR], the run one
    second before it keeps the room and the run two seconds after it
    removes it. *)
Theorem cleanup_removes_iff_older_than_hour
    (s : State) (c : string) (room : Room) (now : Z) :
  rooms s !! c = Some room →
  (rooms (cleanup now s) !! c = None ↔ now - createdAt room > ONE_HOUR)
  ∧ (rooms (cleanup now s) !! c = Some room ↔ (now - createdAt room ≤ ONE_HOUR)%Z)
  ∧ (∀ boundary, createdAt room = boundary - ONE_HOUR - 1000 →
       rooms (cleanup (boundary - 1000) s) !! c = Some room
       ∧ rooms (cleanup (boundary + 2000) s) !! c = None)
  ∧ (∀ boundary, boundary = createdAt room + ONE_HOUR →
       rooms (cleanup (boundary - 1000) s) !! c = Some room
       ∧ rooms (cleanup (boundary + 2000) s) !! c = None).
Proof.
  intros Hc.
  assert (Hlk : ∀ t, rooms (cleanup t s) !! c
                     = if decide (t - createdAt room > ONE_HOUR)
                       then None else Some room).
  { intros t. by rewrite cleanup_lookup, Hc. }
  repeat split.
  - rewrite Hlk. case_decide; [done | discriminate].
  - rewrite Hlk. intros. case_decide; [done | lia].
  - rewrite Hlk. case_decide; [discriminate | lia].
  - rewrite Hlk. intros. case_decide; [lia | done].
  - rewrite Hlk. case_decide; [lia | done].
  - rewrite Hlk. case_decide; [done | lia].
  - rewrite Hlk. case_decide; [lia | done].
  - rewrite Hlk. case_decide; [done | lia].
Qed.

Lemma cleanup_removes_iff_older_than_hour_witness :
  rooms one_room !! "550-100-999" = Some (mkRoom "host-1" None 0)
  ∧ (rooms (cleanup 3600001 one_room) !! "550-100-999" = None
     ↔ 3600001 - 0 > ONE_HOUR)
  ∧ rooms (cleanup (3601000 - 1000) one_room) !! "550-100-999"
    = Some (mkRoom "host-1" None 0)
  ∧ rooms (cleanup (3601000 + 2000) one_room) !! "550-100-999" = None.
Proof.
  assert (Hr : rooms one_room !! "550-100-999" = Some (mkRoom "host-1" None 0))
    by (vm_compute; reflexivity).
  split; [done|].
  destruct (cleanup_removes_iff_older_than_hour one_room "550-100-999"
              (mkRoom "host-1" None 0) 3600001 Hr) as (Hiff & _ & Hex & _).
  split; [exact Hiff|].
  exact (Hex 3601000 eq_refl).
Defined.

(** C3. At every reachable state of the relay a join request has one of
    three outcomes. If no room has the code, the reply is the failure
    "Invalid sharing code"; if the room's viewer slot is not null, the reply
    is the failure "Room is full"; in both cases the rooms and the peer
    index are returned as they were and nothing is emitted. Otherwise the
    joiner is written into the viewer slot and bound as viewer in the peer
    index, the host is told "viewer-joined", and the reply carries the host
    id. *)
Theorem join_room_outcomes (s : State) (sid c : string) :
  reachable s →
  (rooms s !! c = None →
     on_join_room sid c s
     = (s, [callback (reply_failure "Invalid sharing code")]))
  ∧ (∀ room v, rooms s !! c = Some room → viewer room = Some v →
     on_join_room sid c s = (s, [callback (reply_failure "Room is full")]))
  ∧ (∀ room, rooms s !! c = Some room → viewer room = None →
     on_join_room sid c s
     = (mkState (<[c := mkRoom (host room) (Some sid) (createdAt room)]> (rooms s))
                (<[sid := mkPeer c viewer_role]> (peers s)),
        [emit_to (host room) "viewer-joined" (socket_payload sid);
         callback (reply_host (host room))])).
Proof.
  intros Hs. unfold on_join_room. repeat split.
  - by intros ->.
  - intros room v Hc Hv. rewrite Hc, Hv, truthy_Some; [done|].
    by apply (reachable_viewers_nonempty s Hs c room v).
  - by intros room -> ->.
Qed.

Lemma join_room_outcomes_witness :
  reachable paired_session
  ∧ (rooms paired_session !! "550-100-999" = None →
       on_join_room "viewer-2" "550-100-999" paired_session
       = (paired_session, [callback (reply_failure "Invalid sharing code")]))
  ∧ (∀ room v, rooms paired_session !! "550-100-999" = Some room →
       viewer room = Some v →
       on_join_room "viewer-2" "550-100-999" paired_session
       = (paired_session, [callback (reply_failure "Room is full")]))
  ∧ (∀ room, rooms paired_session !! "550-100-999" = Some room →
       viewer room = None →
       on_join_room "viewer-2" "550-100-999" paired_session
       = (mkState (<["550-100-999" := mkRoom (host room) (Some "viewer-2")
                                        (createdAt room)]> (rooms paired_session))
                  (<["viewer-2" := mkPeer "550-100-999" viewer_role]>
                     (peers paired_session)),
          [emit_to (host room) "viewer-joined" (socket_payload "viewer-2");
           callback (reply_host (host room))])).
Proof.
  assert (Hs : reachable paired_session).
  { apply reachable_run; [apply reachable_run; [constructor|] |];
      repeat constructor; discriminate. }
  split; [done|].
  exact (join_room_outcomes paired_session "viewer-2" "550-100-999" Hs).
Defined.

(** C8, as the code has it. The disconnect handler looks at one room only,
    the one the peer index names for the departing connection, and asks
    first whether the connection is that room's host. So: when the
    connection that the peer index binds to a room holds that room's viewer
    slot and is not also the room's host, then after its disconnect the
    host is sent "viewer-disconnected" once and nothing else is emitted,
    the room stays in the store with its viewer slot back to null, the
    viewer's peer record is gone, a join by any new viewer with the same
    code succeeds and is answered with the host id, and a repeated
    disconnect of the same connection changes nothing and notifies
    nobody. *)
Theorem viewer_disconnect_frees_slot
    (s : State) (v c : string) (p : Peer) (room : Room) :
  peers s !! v = Some p → code p = c →
  rooms s !! c = Some room → viewer room = Some v → host room ≠ v →
  let s' := fst (on_disconnect v s) in
  snd (on_disconnect v s) = [emit_to (host room) "viewer-disconnected" no_payload]
  ∧ rooms s' !! c = Some (mkRoom (host room) None (createdAt room))
  ∧ peers s' !! v = None
  ∧ (∀ v', on_join_room v' c s'
           = (mkState (<[c := mkRoom (host room) (Some v') (createdAt room)]> (rooms s'))
                      (<[v' := mkPeer c viewer_role]> (peers s')),
              [emit_to (host room) "viewer-joined" (socket_payload v');
               callback (reply_host (host room))]))
  ∧ on_disconnect v s' = (s', []).
Proof.
  intros Hp <- Hroom Hv Hh. unfold on_disconnect at 1 2. rewrite Hp, Hroom.
  rewrite decide_False by done. rewrite decide_True by done. simpl.
  repeat split.
  - by rewrite lookup_insert_eq.
  - by rewrite lookup_delete_eq.
  - intros v'. unfold on_join_room; simpl. by rewrite lookup_insert_eq.
  - unfold on_disconnect; simpl. by rewrite lookup_delete_eq.
Qed.

Lemma viewer_disconnect_frees_slot_witness :
  (peers paired_session !! "viewer-1" = Some (mkPeer "550-100-999" viewer_role)
   ∧ rooms paired_session !! "550-100-999"
     = Some (mkRoom "host-1" (Some "viewer-1") 0)
   ∧ "host-1" ≠ "viewer-1")
  ∧ let s' := fst (on_disconnect "viewer-1" paired_session) in
    snd (on_disconnect "viewer-1" paired_session)
      = [emit_to "host-1" "viewer-disconnected" no_payload]
    ∧ rooms s' !! "550-100-999" = Some (mkRoom "host-1" None 0)
    ∧ peers s' !! "viewer-1" = None
    ∧ (∀ v', on_join_room v' "550-100-999" s'
             = (mkState (<["550-100-999" := mkRoom "host-1" (Some v') 0]> (rooms s'))
                        (<[v' := mkPeer "550-100-999" viewer_role]> (peers s')),
                [emit_to "host-1" "viewer-joined" (socket_payload v');
                 callback (reply_host "host-1")]))
    ∧ on_disconnect "viewer-1" s' = (s', []).
Proof.
  assert (Hp : peers paired_session !! "viewer-1"
               = Some (mkPeer "550-100-999" viewer_role))
    by (vm_compute; reflexivity).
  assert (Hr : rooms paired_session !! "550-100-999"
               = Some (mkRoom "host-1" (Some "viewer-1") 0))
    by (vm_compute; reflexivity).
  assert (Hh : "host-1" ≠ "viewer-1") by discriminate.
  split; [exact (conj Hp (conj Hr Hh))|].
  exact (viewer_disconnect_frees_slot paired_session "viewer-1" "550-100-999"
           (mkPeer "550-100-999" viewer_role)
           (mkRoom "host-1" (Some "viewer-1") 0)
           Hp eq_refl Hr eq_refl Hh).
Defined.

(** C8 as the specification words it fails for a viewer slot that the
    peer index does not lead to, and for a viewer that is the room's host.
    The viewer of [joined_twice] holds the slots of two rooms and is bound
    to the second: its disconnect clears that one and notifies that host
    only, the first room keeps the departed viewer in its slot and answers
    the next join "Room is full". The host of [self_joined]
    holds its own viewer slot: its disconnect deletes the room and sends
    "host-disconnected" to itself, and a later join is answered "Invalid
    sharing code". *)
Lemma viewer_disconnect_keeps_other_slot :
  reachable joined_twice
  ∧ rooms joined_twice !! "550-100-999"
    = Some (mkRoom "host-1" (Some "viewer-1") 0)
  ∧ ¬ viewer_disconnect_clears_slot "viewer-1" joined_twice
  ∧ on_disconnect "viewer-1" joined_twice
    = (mkState (<["325-550-100" := mkRoom "host-2" None 5]> (rooms joined_twice))
               (delete "viewer-1" (peers joined_twice)),
       [emit_to "host-2" "viewer-disconnected" no_payload])
  ∧ rooms (fst (on_disconnect "viewer-1" joined_twice)) !! "550-100-999"
    = Some (mkRoom "host-1" (Some "viewer-1") 0)
  ∧ snd (on_join_room "viewer-2" "550-100-999"
           (fst (on_disconnect "viewer-1" joined_twice)))
    = [callback (reply_failure "Room is full")]
  ∧ reachable self_joined
  ∧ rooms self_joined !! "550-100-999"
    = Some (mkRoom "host-1" (Some "host-1") 0)
  ∧ ¬ viewer_disconnect_clears_slot "host-1" self_joined
  ∧ snd (on_disconnect "host-1" self_joined)
    = [emit_to "host-1" "host-disconnected" no_payload]
  ∧ rooms (fst (on_disconnect "host-1" self_joined)) !! "550-100-999" = None
  ∧ snd (on_join_room "viewer-2" "550-100-999"
           (fst (on_disconnect "host-1" self_joined)))
    = [callback (reply_failure "Invalid sharing code")].
Proof.
  assert (Hone : reachable one_room).
  { apply reachable_run; [constructor|]. repeat constructor. discriminate. }
  assert (Hpaired : reachable paired_session).
  { apply reachable_run; [exact Hone|]. repeat constructor. discriminate. }
  split; [|split; [|split; [|split; [|split; [|split; [|split;
    [|split; [|split; [|split; [|split]]]]]]]]]].
  - apply reachable_run; [exact Hpaired|]. repeat constructor; discriminate.
  - vm_compute; reflexivity.
  - intros H.
    specialize (H "550-100-999" (mkRoom "host-1" (Some "viewer-1") 0)).
    assert (Hr : rooms joined_twice !! "550-100-999"
                 = Some (mkRoom "host-1" (Some "viewer-1") 0))
      by (vm_compute; reflexivity).
    destruct (H Hr eq_refl) as (Hslot & _).
    vm_compute in Hslot. discriminate Hslot.
  - vm_compute; reflexivity.
  - vm_compute; reflexivity.
  - vm_compute; reflexivity.
  - apply reachable_run; [exact Hone|]. repeat constructor. discriminate.
  - vm_compute; reflexivity.
  - intros H.
    specialize (H "550-100-999" (mkRoom "host-1" (Some "host-1") 0)).
    assert (Hr : rooms self_joined !! "550-100-999"
                 = Some (mkRoom "host-1" (Some "host-1") 0))
      by (vm_compute; reflexivity).
    destruct (H Hr eq_refl) as (Hslot & _).
    vm_compute in Hslot. discriminate Hslot.
  - vm_compute; reflexivity.
  - vm_compute; reflexivity.
  - vm_compute; reflexivity.
Qed.

(** C2, as the code has it. When the connection that the peer index binds
    to a room as its host disconnects, the room is deleted and the host's
    own peer record is removed; every other peer record, the viewer's
    included, stays in the peer index. A viewer in the slot is sent
    "host-disconnected". From then on a join with the room's code is
    answered "Invalid sharing code" and changes nothing, for as long as no
    later generate-code request draws the same code again. *)
Theorem host_disconnect_closes_room
    (s : State) (h : string) (p : Peer) (room : Room) :
  peers s !! h = Some p → rooms s !! code p = Some room → host room = h →
  let s' := fst (on_disconnect h s) in
  rooms s' !! code p = None
  ∧ peers s' = delete h (peers s)
  ∧ (∀ v, v ≠ h → peers s' !! v = peers s !! v)
  ∧ (∀ v, viewer room = Some v → v ≠ "" →
       snd (on_disconnect h s) = [emit_to v "host-disconnected" no_payload])
  ∧ (∀ es sid, Forall (fun e => ¬ creates (code p) e) es →
       on_join_room sid (code p) (run es s')
       = (run es s', [callback (reply_failure "Invalid sharing code")])).
Proof.
  intros Hp Hroom Hh. unfold on_disconnect. rewrite Hp, Hroom.
  rewrite decide_True by done. simpl.
  assert (Hgone : delete (code p) (rooms s) !! code p = None)
    by apply lookup_delete_eq.
  repeat split.
  - done.
  - intros v Hv. by rewrite lookup_delete_ne.
  - intros v -> Hv. destruct (String.eqb_spec v ""); [contradiction|done].
  - intros es sid Hes. unfold on_join_room.
    by rewrite (run_keeps_absent (code p) es
                  (mkState (delete (code p) (rooms s)) (delete h (peers s)))
                  Hgone Hes).
Qed.

Lemma host_disconnect_closes_room_witness :
  (peers paired_session !! "host-1" = Some (mkPeer "550-100-999" host_role)
   ∧ rooms paired_session !! "550-100-999"
     = Some (mkRoom "host-1" (Some "viewer-1") 0))
  ∧ let s' := fst (on_disconnect "host-1" paired_session) in
    rooms s' !! "550-100-999" = None
    ∧ peers s' = delete "host-1" (peers paired_session)
    ∧ (∀ v, v ≠ "host-1" → peers s' !! v = peers paired_session !! v)
    ∧ (∀ v, Some "viewer-1" = Some v → v ≠ "" →
         snd (on_disconnect "host-1" paired_session)
         = [emit_to v "host-disconnected" no_payload])
    ∧ (∀ es sid, Forall (fun e => ¬ creates "550-100-999" e) es →
         on_join_room sid "550-100-999" (run es s')
         = (run es s', [callback (reply_failure "Invalid sharing code")])).
Proof.
  assert (Hp : peers paired_session !! "host-1"
               = Some (mkPeer "550-100-999" host_role))
    by (vm_compute; reflexivity).
  assert (Hr : rooms paired_session !! "550-100-999"
               = Some (mkRoom "host-1" (Some "viewer-1") 0))
    by (vm_compute; reflexivity).
  split; [exact (conj Hp Hr)|].
  exact (host_disconnect_closes_room paired_session "host-1"
           (mkPeer "550-100-999" host_role)
           (mkRoom "host-1" (Some "viewer-1") 0) Hp Hr eq_refl).
Defined.

(** C2 as the specification words it fails twice over. After the host of
    the paired sample session disconnects, its viewer is still bound in the
    peer index; and once a later generate-code request draws the same code
    again, a join with that code succeeds. *)
Lemma host_disconnect_leaves_viewer_bound :
  ¬ host_disconnect_unbinds_viewer "host-1" paired_session
  ∧ peers (fst (on_disconnect "host-1" paired_session)) !! "viewer-1"
    = Some (mkPeer "550-100-999" viewer_role)
  ∧ ¬ code_stays_closed "host-1" paired_session
  ∧ snd (on_join_room "viewer-2" "550-100-999"
           (run [ev_generate_code "host-2" (1#2) 0 (1023#1024) 50]
                (fst (on_disconnect "host-1" paired_session))))
    = [emit_to "host-2" "viewer-joined" (socket_payload "viewer-2");
       callback (reply_host "host-2")].
Proof.
  split; [|split; [|split]].
  - intros H.
    specialize (H (mkPeer "550-100-999" host_role)
                  (mkRoom "host-1" (Some "viewer-1") 0) "viewer-1").
    assert (Hv : peers (fst (on_disconnect "host-1" paired_session)) !! "viewer-1"
                 = None).
    { apply H; vm_compute; reflexivity. }
    vm_compute in Hv. discriminate Hv.
  - vm_compute; reflexivity.
  - intros H.
    specialize (H (mkPeer "550-100-999" host_role)
                  [ev_generate_code "host-2" (1#2) 0 (1023#1024) 50] "viewer-2").
    assert (Hp : peers paired_session !! "host-1"
                 = Some (mkPeer "550-100-999" host_role))
      by (vm_compute; reflexivity).
    specialize (H Hp). vm_compute in H. discriminate H.
  - vm_compute; reflexivity.
Qed.

(** C1, as the code has it. A generate-code request is answered with the
    code that [generateSharingCode] draws, whatever the store holds.
    Afterwards that code maps to a new room with the requester as host, a
    null viewer and the current time: the room is added when the code was
    free and replaces the earlier room when the code was live. Every other
    code keeps its room, the requester is bound as host of the code, and
    the codes of the live rooms are pairwise distinct. *)
Theorem generate_code_sets_room
    (s : State) (sid : string) (rnd1 rnd2 rnd3 : Q) (now : Z) :
  let c := generateSharingCode rnd1 rnd2 rnd3 in
  let s' := fst (on_generate_code sid rnd1 rnd2 rnd3 now s) in
  snd (on_generate_code sid rnd1 rnd2 rnd3 now s) = [callback (reply_code c)]
  ∧ rooms s' !! c = Some (mkRoom sid None now)
  ∧ (∀ c', c' ≠ c → rooms s' !! c' = rooms s !! c')
  ∧ (rooms s !! c = None → size (rooms s') = S (size (rooms s)))
  ∧ (is_Some (rooms s !! c) → size (rooms s') = size (rooms s))
  ∧ peers s' !! sid = Some (mkPeer c host_role)
  ∧ NoDup (map_to_list (rooms s')).*1.
Proof.
  simpl. repeat split.
  - by rewrite lookup_insert_eq.
  - intros c' Hc'. by rewrite lookup_insert_ne.
  - intros Hfree. by apply map_size_insert_None.
  - intros Hlive. by apply map_size_insert_Some.
  - by rewrite lookup_insert_eq.
  - apply NoDup_fst_map_to_list.
Qed.

(** C1 as the specification words it fails: a second request that draws
    the code of the live room of [one_room] is answered with that very code,
    and the room of the first host is replaced by a room of the second. *)
Lemma generate_code_collision_overwrites :
  reachable one_room
  ∧ ¬ replies_fresh_code "host-2" (1#2) 0 (1023#1024) 1 one_room
  ∧ rooms one_room !! "550-100-999" = Some (mkRoom "host-1" None 0)
  ∧ rooms (fst (on_generate_code "host-2" (1#2) 0 (1023#1024) 1 one_room))
      !! "550-100-999" = Some (mkRoom "host-2" None 1).
Proof.
  split; [|split; [|split]].
  - apply reachable_run; [constructor|]. repeat constructor. discriminate.
  - intros H. specialize (H "550-100-999").
    assert (Hc : rooms one_room !! "550-100-999" = None).
    { apply H. vm_compute. apply list_elem_of_here. }
    vm_compute in Hc. discriminate Hc.
  - vm_compute; reflexivity.
  - vm_compute; reflexivity.
Qed.

End RelayFacts.

(** * Properties of the control transport *)

Module ClientFacts.
Import Client.

Local Open Scope list_scope.

(** ** Queueing *)

Lemma queue_many (evs : list (ControlEvent * Z)) (s : State) :
  let s1 := fold_left (fun st e => queueControlEvent (fst e) (snd e) st) evs s in
  eventBatchQueue s1
    = eventBatchQueue s ++ map (fun e => stamp (fst e) (snd e)) evs
  ∧ eventBatchInterval s1 = eventBatchInterval s
  ∧ dataChannel s1 = dataChannel s.
Proof.
  revert s. induction evs as [|[ev t] evs IH]; intros s; simpl.
  - by rewrite app_nil_r.
  - destruct (IH (queueControlEvent ev t s)) as (Hq & Hi & Hc).
    simpl in *. rewrite Hq, Hi, Hc. by rewrite <- app_assoc.
Qed.

(** ** A page with control switched off *)

Lemma step_switched_off (a : Action) (s : State) :
  switched_off s → ¬ enables a →
  switched_off (state_of (step a s))
  ∧ List.filter is_sent (effects_of (step a s)) = [].
Proof.
  intros (He & Hi & Hq) Ha.
  destruct s as [en q iv ch last video lis]; simpl in *; subst.
  destruct a as [[] t| | | | | | | | | | |]; simpl in *;
    try contradiction; try (by repeat split);
    unfold toggleRemoteControl, onclose, disconnectFromRemote; simpl;
    destruct video; simpl; by repeat split.
Qed.

Lemma run_switched_off (acts : list Action) (s : State) :
  switched_off s → Forall (fun a => ¬ enables a) acts →
  switched_off (fst (run acts s))
  ∧ List.filter is_sent (snd (run acts s)) = [].
Proof.
  revert s. induction acts as [|a acts IH]; intros s Hs Hacts; [done|].
  inversion_clear Hacts as [|? ? Ha Hrest].
  destruct (step_switched_off a s Hs Ha) as [Hs1 Hout1].
  destruct (IH _ Hs1 Hrest) as [Hs2 Hout2].
  simpl. destruct (run acts (state_of (step a s))) as [s2 out2]; simpl in *.
  split; [done|]. by rewrite List.filter_app, Hout1, Hout2.
Qed.

Lemma batch_is_sent (out : list Effect) :
  List.filter is_sent out = [] → List.filter is_batch out = [].
Proof.
  induction out as [|[m|] out IH]; simpl; [done|discriminate|].
  intros H. by apply IH.
Qed.

(** ** The claims about the control transport *)

(** C5. While the flush timer is registered and the channel is open, let
    the queue hold, after any number of [queueControlEvent] calls, the
    events [q] (the events queued before, then the new ones in the order of
    the calls, each stamped with its queueing time). If [q] is not empty, a
    tick sends exactly one message: a batch stamped with the send time that
    carries the first [min (length q) 50] events of [q] in their order; the
    remaining events stay queued, in their order, for the next tick. *)
Theorem flush_sends_oldest_batch
    (s : State) (timer : positive) (evs : list (ControlEvent * Z)) (now : Z) :
  eventBatchInterval s = Some timer →
  dataChannel s = Some open →
  let s1 := fold_left (fun st e => queueControlEvent (fst e) (snd e) st) evs s in
  let q := eventBatchQueue s ++ map (fun e => stamp (fst e) (snd e)) evs in
  q ≠ [] →
  eventBatchQueue s1 = q
  ∧ step (act_tick now) s1
    = returned (set_queue (drop 50 q) s1) [sent (batch (take 50 q) now)]
  ∧ length (take 50 q) = Nat.min (length q) 50
  ∧ take 50 q ++ drop 50 q = q.
Proof.
  intros Hi Hc s1 q Hq.
  destruct (queue_many evs s) as (Hq1 & Hi1 & Hc1).
  fold s1 in Hq1, Hi1, Hc1. fold q in Hq1.
  repeat split.
  - done.
  - simpl. rewrite Hi1, Hi. unfold flush, channel_send.
    cbn [dataChannel set_queue]. rewrite Hc1, Hc, Hq1.
    destruct q as [|e q']; [done|]. reflexivity.
  - rewrite length_take. lia.
  - apply take_drop.
Qed.

Lemma flush_sends_oldest_batch_witness :
  (eventBatchInterval controlling = Some 7%positive
   ∧ dataChannel controlling = Some open)
  ∧ let s1 := queueControlEvent (wheel 0 (3#1) 0) 120 controlling in
    let q := [stamp (mousemove (1#4) (1#2)) 100;
              stamp (mousemove (1#2) (1#2)) 110;
              stamp (wheel 0 (3#1) 0) 120] in
    eventBatchQueue s1 = q
    ∧ step (act_tick 126) s1 = returned (set_queue [] s1) [sent (batch q 126)].
Proof.
  split; [by split|].
  destruct (flush_sends_oldest_batch controlling 7%positive
              [(wheel 0 (3#1) 0, 120)] 126 eq_refl eq_refl)
    as (Hq & Hstep & _).
  - discriminate.
  - split; [exact Hq | exact Hstep].
Defined.

(** C9. While the data channel is absent or not open, sending is a silent
    no-op: [sendControlEventImmediate], the four handlers that call it, the
    flush callback and a timer tick all return (none throws) with the state
    unchanged, no message sent and no status message shown. *)
Theorem send_without_open_channel_is_noop (s : State) :
  (dataChannel s = None ∨ ∃ r, dataChannel s = Some r ∧ r ≠ open) →
  (∀ ev now, sendControlEventImmediate ev now s = returned s [])
  ∧ (∀ now, flush now s = returned s [])
  ∧ (∀ now, step (act_tick now) s = returned s [])
  ∧ (∀ b x y now, handleMouseDown b x y now s = returned s [])
  ∧ (∀ b x y now, handleMouseUp b x y now s = returned s [])
  ∧ (∀ k c ct sh al me now, handleKeyDown k c ct sh al me now s = returned s [])
  ∧ (∀ k c ct sh al me now, handleKeyUp k c ct sh al me now s = returned s []).
Proof.
  intros Hch.
  assert (Hclosed : channel_open (dataChannel s) = false).
  { destruct Hch as [->|(r & -> & Hr)]; [done|]. by destruct r. }
  assert (Hsend : ∀ ev now, sendControlEventImmediate ev now s = returned s []).
  { intros ev now. unfold sendControlEventImmediate. by rewrite Hclosed. }
  assert (Hflush : ∀ now, flush now s = returned s []).
  { intros now. unfold flush. by rewrite Hclosed, andb_false_r. }
  repeat split; try done.
  - intros now. simpl. by destruct (eventBatchInterval s).
  - intros. unfold handleMouseDown. by destruct (negb _).
  - intros. unfold handleMouseUp. by destruct (negb _).
  - intros. unfold handleKeyDown.
    repeat match goal with |- context [if ?b then _ else _] => destruct b end; done.
  - intros. unfold handleKeyUp. by destruct (negb _).
Qed.

Lemma send_without_open_channel_is_noop_witness :
  let s := set_channel (Some connecting) controlling in
  (dataChannel s = None ∨ ∃ r, dataChannel s = Some r ∧ r ≠ open)
  ∧ sendControlEventImmediate (mousedown 0 (1#2) (1#2)) 130 s = returned s []
  ∧ step (act_tick 132) s = returned s [].
Proof.
  assert (H : dataChannel (set_channel (Some connecting) controlling) = None
              ∨ ∃ r, dataChannel (set_channel (Some connecting) controlling)
                     = Some r ∧ r ≠ open).
  { right. exists connecting. split; [reflexivity | discriminate]. }
  split; [exact H|].
  destruct (send_without_open_channel_is_noop _ H) as (Hsend & _ & Htick & _).
  split; [apply Hsend | apply Htick].
Defined.

(** C6, as the code has it. When [toggleRemoteControl(false)] runs while the
    remote video element is in the document and the flush timer is
    registered, control is off afterwards, the timer is cleared and the
    queue is empty, so every event queued at that moment is dropped; and
    through every later sequence of ticks, input events, channel changes,
    display changes and disconnects that does not switch control on again,
    no message at all, so no batch, is sent and the queue stays empty. *)
Theorem disable_with_video_drops_and_silences
    (s : State) (timer running : positive) (cursor : string) :
  remoteVideo s = Some cursor →
  eventBatchInterval s = Some running →
  let s' := fst (toggleRemoteControl false timer s) in
  remoteControlEnabled s' = false
  ∧ eventBatchInterval s' = None
  ∧ eventBatchQueue s' = []
  ∧ ∀ acts, Forall (fun a => ¬ enables a) acts →
      List.filter is_batch (snd (run acts s')) = []
      ∧ List.filter is_sent (snd (run acts s')) = []
      ∧ eventBatchQueue (fst (run acts s')) = [].
Proof.
  intros Hv Hi s'.
  assert (Hoff : switched_off s').
  { subst s'. unfold toggleRemoteControl, stopEventBatching. simpl.
    rewrite Hv. simpl. rewrite Hi. by repeat split. }
  destruct Hoff as (He & Hi' & Hq). repeat split; try done.
  - apply batch_is_sent.
    by apply (run_switched_off acts s' (conj He (conj Hi' Hq))).
  - by apply (run_switched_off acts s' (conj He (conj Hi' Hq))).
  - by apply (run_switched_off acts s' (conj He (conj Hi' Hq))).
Qed.

Lemma disable_with_video_drops_and_silences_witness :
  (remoteVideo controlling = Some "none"
   ∧ eventBatchInterval controlling = Some 7%positive)
  ∧ let s' := fst (toggleRemoteControl false 8%positive controlling) in
    eventBatchQueue s' = []
    ∧ List.filter is_batch
        (snd (run [act_tick 120; act_mousemove (1#3) (1#3) 125 125; act_tick 136] s'))
      = [].
Proof.
  split; [by split|].
  destruct (disable_with_video_drops_and_silences controlling 8%positive
              7%positive "none" eq_refl eq_refl) as (_ & _ & Hq & Hrun).
  split; [exact Hq|].
  apply Hrun. repeat constructor; simpl; tauto.
Defined.

(** C6 as the specification words it fails when the remote video element
    is gone. The page gets there when the remote stream is shown, control is
    switched on, two moves are queued while the channel is still connecting,
    the display is rebuilt without the remote video and an open channel is
    assigned. Switching control off then, be it by a direct call or by the
    [onclose] handler of a channel, only clears the flag: the two queued
    events stay queued, the timer keeps running and its next tick sends them
    as a batch. *)
Lemma disable_without_video_keeps_flushing :
  fst (run [act_video true; act_channel (Some connecting);
            act_toggle true 7%positive;
            act_mousemove (1#4) (1#2) 100 100;
            act_mousemove (1#2) (1#2) 110 110;
            act_video false; act_channel (Some open)] initial)
  = controlling_without_video
  ∧ ¬ disable_drops_and_silences 8%positive controlling_without_video
  ∧ fst (toggleRemoteControl false 8%positive controlling_without_video)
    = set_enabled false controlling_without_video
  ∧ snd (run [act_onclose 8%positive; act_tick 120] controlling_without_video)
    = [sent (batch [stamp (mousemove (1#4) (1#2)) 100;
                    stamp (mousemove (1#2) (1#2)) 110] 120)].
Proof.
  split; [reflexivity|]. split; [|split; reflexivity].
  intros [Hq _]. discriminate Hq.
Qed.

End ClientFacts.

(** * Properties of the text functions *)

Module TextFacts.
Import Text.

Local Open Scope list_scope.

Lemma chars_str (l : list ascii) : chars (str l) = l.
Proof. apply String.list_ascii_of_string_of_list_ascii. Qed.

Lemma str_chars (s : string) : str (chars s) = s.
Proof. apply String.string_of_list_ascii_of_string. Qed.

Lemma filter_all_digits (l : list ascii) : all_digits (List.filter is_digit l).
Proof.
  induction l as [|c l IH]; simpl; [constructor|].
  destruct (is_digit c) eqn:E; [by constructor | done].
Qed.

Lemma filter_digits_id (l : list ascii) :
  all_digits l → List.filter is_digit l = l.
Proof.
  induction 1 as [|c l Hc _ IH]; simpl; [done|]. by rewrite Hc, IH.
Qed.

Lemma all_digits_take (n : nat) (l : list ascii) :
  all_digits l → all_digits (take n l).
Proof. apply Forall_take. Qed.

(** ** [formatSharingCode] *)

Ltac split_digits H :=
  repeat match goal with
         | H' : all_digits (_ :: _) |- _ => inversion_clear H'
         | H' : Forall _ (_ :: _) |- _ => inversion_clear H'
         end.

(** The dashes are laid out from the first nine digits alone. *)
Lemma layout_take_9 (d : list ascii) :
  (if (length (take 9 d) <=? 3)%nat then take 9 d
   else if (length (take 9 d) <=? 6)%nat then
     slice 0 3 (take 9 d) ++ chars "-" ++ drop 3 (take 9 d)
   else
     slice 0 3 (take 9 d) ++ chars "-" ++ slice 3 6 (take 9 d) ++ chars "-"
       ++ slice 6 9 (take 9 d))
  = (if (length d <=? 3)%nat then d
     else if (length d <=? 6)%nat then slice 0 3 d ++ chars "-" ++ drop 3 d
     else slice 0 3 d ++ chars "-" ++ slice 3 6 d ++ chars "-" ++ slice 6 9 d).
Proof.
  do 10 (destruct d as [|? d]; [reflexivity|]). reflexivity.
Qed.

Lemma format_chars_first_nine (value : list ascii) :
  format_chars value = format_chars (take 9 (List.filter is_digit value)).
Proof.
  unfold format_chars.
  rewrite (filter_digits_id (take 9 _))
    by apply all_digits_take, filter_all_digits.
  symmetry. apply layout_take_9.
Qed.

Lemma format_chars_digits (value : list ascii) :
  List.filter is_digit (format_chars value)
  = take 9 (List.filter is_digit value).
Proof.
  unfold format_chars.
  pose proof (filter_all_digits value) as Hd.
  revert Hd. generalize (List.filter is_digit value) as d. intros d Hd.
  do 10 (destruct d as [|? d];
         [split_digits Hd; cbn -[is_digit];
          repeat match goal with H : is_digit _ = true |- _ => rewrite H; clear H end;
          reflexivity|]).
  split_digits Hd. cbn -[is_digit].
  repeat match goal with H : is_digit _ = true |- _ => rewrite H; clear H end.
  reflexivity.
Qed.

Lemma format_chars_idempotent (value : list ascii) :
  format_chars (format_chars value) = format_chars value.
Proof.
  rewrite (format_chars_first_nine (format_chars value)).
  rewrite format_chars_digits.
  rewrite take_take, Nat.min_id.
  symmetry. apply format_chars_first_nine.
Qed.

(** C10. [formatSharingCode] is idempotent; its result is the result it
    gives on the first nine digits of its argument alone, so it depends on
    nothing else; and the digits of the result are exactly those first nine
    digits, any digit after the ninth being discarded. *)
Theorem formatSharingCode_idempotent_first_nine (value : string) :
  formatSharingCode (formatSharingCode value) = formatSharingCode value
  ∧ formatSharingCode value
    = formatSharingCode (str (take 9 (List.filter is_digit (chars value))))
  ∧ List.filter is_digit (chars (formatSharingCode value))
    = take 9 (List.filter is_digit (chars value)).
Proof.
  unfold formatSharingCode. rewrite !chars_str. repeat split.
  - by rewrite format_chars_idempotent.
  - by rewrite <- format_chars_first_nine.
  - apply format_chars_digits.
Qed.

(** Two inputs with the same first nine digits are formatted alike. *)
Lemma formatSharingCode_same_first_nine (v1 v2 : string) :
  take 9 (List.filter is_digit (chars v1))
  = take 9 (List.filter is_digit (chars v2)) →
  formatSharingCode v1 = formatSharingCode v2.
Proof.
  intros H. unfold formatSharingCode.
  by rewrite (format_chars_first_nine (chars v1)),
             (format_chars_first_nine (chars v2)), H.
Qed.

(** ** Global replacement *)

Lemma replace_from_skip pattern replacement (k : nat) (s : list ascii) :
  replace_from pattern replacement k s
  = replace_from pattern replacement 0 (drop k s).
Proof.
  revert k. induction s as [|c s IH]; intros [|k]; simpl; auto.
Qed.

Lemma strip_prefix_app (p s : list ascii) : strip_prefix p (p ++ s) = Some s.
Proof.
  induction p as [|a p IH]; simpl; [done|]. by rewrite Ascii.eqb_refl.
Qed.

Lemma span_digits_run (ds rest : list ascii) :
  all_digits ds →
  match rest with c :: _ => is_digit c = false | [] => True end →
  span_digits (ds ++ rest) = (ds, rest).
Proof.
  intros Hds Hrest. induction Hds as [|c ds Hc _ IH]; cbn -[is_digit].
  - destruct rest as [|c rest]; [done|]. cbn -[is_digit]. by rewrite Hrest.
  - by rewrite Hc, IH.
Qed.

Lemma match_here_hit (prefix suffix : string) (ds tail : list ascii) :
  ds ≠ [] → all_digits ds →
  match chars suffix with c :: _ => is_digit c = false | [] => False end →
  match_here prefix suffix (chars prefix ++ ds ++ chars suffix ++ tail)
  = Some (ds, (length (chars prefix) + length ds + length (chars suffix))%nat).
Proof.
  intros Hne Hds Hsuf. unfold match_here.
  rewrite strip_prefix_app.
  rewrite (span_digits_run ds (chars suffix ++ tail) Hds).
  - rewrite strip_prefix_app. by destruct ds.
  - destruct (chars suffix); [done|]. exact Hsuf.
Qed.

Lemma replace_all_hit (prefix suffix : string) replacement (ds tail : list ascii) :
  ds ≠ [] → all_digits ds →
  match chars suffix with c :: _ => is_digit c = false | [] => False end →
  replace_all (match_here prefix suffix) replacement
    (chars prefix ++ ds ++ chars suffix ++ tail)
  = replacement ds ++ replace_all (match_here prefix suffix) replacement tail.
Proof.
  intros Hne Hds Hsuf. unfold replace_all.
  pose proof (match_here_hit prefix suffix ds tail Hne Hds Hsuf) as Hhit.
  set (s := chars prefix ++ ds ++ chars suffix ++ tail) in *.
  assert (Hlen : drop (length (chars prefix) + length ds + length (chars suffix)) s
                 = tail).
  { subst s. rewrite !app_assoc. rewrite <- !length_app. apply drop_app_length. }
  destruct s as [|c rest] eqn:Es.
  - destruct (chars prefix), ds; simpl in *; done.
  - simpl. rewrite Hhit. f_equal. rewrite replace_from_skip. f_equal.
    rewrite <- Hlen.
    destruct (length (chars prefix) + length ds + length (chars suffix))%nat eqn:En.
    + destruct ds; [done|]. simpl in En. lia.
    + reflexivity.
Qed.

(** The hints are written right behind the payload type of a
    format-parameter line, in front of the parameters the line had. *)
Lemma fmtp_hints_follow_payload_type (pt tail : list ascii) :
  pt ≠ [] → all_digits pt →
  replace_all fmtp_pattern fmtp_replacement (chars "a=fmtp:" ++ pt ++ chars " " ++ tail)
  = chars "a=fmtp:" ++ pt
      ++ chars " x-google-max-bitrate=10000;x-google-min-bitrate=2000;x-google-start-bitrate=5000;"
      ++ replace_all fmtp_pattern fmtp_replacement tail.
Proof.
  intros Hne Hds. unfold fmtp_pattern.
  rewrite (replace_all_hit "a=fmtp:" " " _ pt tail Hne Hds) by reflexivity.
  unfold fmtp_replacement. by rewrite <- !app_assoc.
Qed.

(** The inserted text is written right behind [H264]: whatever the mapping
    line goes on with (its clock rate) follows the profile string. *)
Lemma h264_line_inserted_behind_name (pt tail : list ascii) :
  pt ≠ [] → all_digits pt →
  replace_all h264_pattern h264_replacement
    (chars "a=rtpmap:" ++ pt ++ chars " H264" ++ tail)
  = chars "a=rtpmap:" ++ pt ++ chars " H264" ++ CRLF ++ chars "a=fmtp:" ++ pt
      ++ chars " profile-level-id=42e01f;level-asymmetry-allowed=1;packetization-mode=1"
      ++ replace_all h264_pattern h264_replacement tail.
Proof.
  intros Hne Hds. unfold h264_pattern.
  rewrite (replace_all_hit "a=rtpmap:" " H264" _ pt tail Hne Hds) by reflexivity.
  unfold h264_replacement. by rewrite <- !app_assoc.
Qed.

(** ** The claim about [optimizeSDPForLatency] *)

(** C4. On the sample descriptor, with one H264 mapping line
    [a=rtpmap:96 H264/90000] and one format-parameter line, the rewriting
    puts the three bitrate hints into the format-parameter line right
    behind the payload type, but it cuts the mapping line behind [H264]:
    the inserted line does not follow the mapping line, it follows the first
    half of it, and the clock rate [/90000] ends up at the end of the
    inserted line. So the mapping line is no longer in the output, and the
    profile string never ends a line of the output. *)
Theorem optimizeSDPForLatency_splits_mapping_line :
  optimizeSDPForLatency sample_offer
  = sdp_of_lines
      ["m=video 9 UDP/TLS/RTP/SAVPF 96";
       "a=rtpmap:96 H264";
       "a=fmtp:96 profile-level-id=42e01f;level-asymmetry-allowed=1;packetization-mode=1/90000";
       "a=fmtp:96 x-google-max-bitrate=10000;x-google-min-bitrate=2000;x-google-start-bitrate=5000;level-asymmetry-allowed=1;packetization-mode=1;profile-level-id=42001f"]
  ∧ occurs (chars "a=rtpmap:96 H264/90000") (chars sample_offer) = true
  ∧ occurs (chars "a=rtpmap:96 H264/90000")
           (chars (optimizeSDPForLatency sample_offer)) = false
  ∧ occurs (chars "profile-level-id=42e01f;level-asymmetry-allowed=1;packetization-mode=1"
              ++ CRLF)
           (chars (optimizeSDPForLatency sample_offer)) = false.
Proof. repeat split; vm_compute; reflexivity. Qed.

End TextFacts.

(** * Further properties of the text functions *)

Module TextMore.
Import Text TextFacts.

Local Open Scope list_scope.

Lemma digit_not_space (c : ascii) : is_digit c = true → is_space c = false.
Proof.
  destruct c as [[] [] [] [] [] [] [] []]; vm_compute; congruence.
Qed.

Lemma filter_no_space_id (l : list ascii) :
  Forall (fun c => is_space c = false) l →
  List.filter (fun c => negb (is_space c)) l = l.
Proof.
  induction 1 as [|c l Hc _ IH]; simpl; [done|]. by rewrite Hc, IH.
Qed.

Lemma drop_spaces_no_space (l : list ascii) :
  match l with c :: _ => is_space c = false | [] => True end →
  drop_spaces l = l.
Proof. destruct l as [|c l]; simpl; [done|]. by intros ->. Qed.

Lemma dashed_code_no_space (l : list ascii) :
  dashed_code l → Forall (fun c => is_space c = false) l.
Proof.
  intros (a & b & c & d & e & f & g & h & i & -> & Hd).
  split_digits Hd.
  repeat constructor; try (by apply digit_not_space); reflexivity.
Qed.

Lemma dashed_code_test (l : list ascii) : dashed_code l → pattern_test l = true.
Proof.
  intros (a & b & c & d & e & f & g & h & i & -> & Hd).
  split_digits Hd. cbn -[is_digit].
  repeat match goal with H : is_digit _ = true |- _ => rewrite H; clear H end.
  reflexivity.
Qed.

Lemma dashed_code_format (l : list ascii) : dashed_code l → format_chars l = l.
Proof.
  intros (a & b & c & d & e & f & g & h & i & -> & Hd).
  split_digits Hd. unfold format_chars. cbn -[is_digit].
  repeat match goal with H : is_digit _ = true |- _ => rewrite H; clear H end.
  reflexivity.
Qed.

Lemma dashed_code_trim (l : list ascii) : dashed_code l → trim l = l.
Proof.
  intros Hl. pose proof (dashed_code_no_space l Hl) as Hs.
  destruct Hl as (a & b & c & d & e & f & g & h & i & -> & Hd).
  repeat match goal with H : Forall _ (_ :: _) |- _ => inversion_clear H end.
  unfold trim. cbn -[is_space].
  repeat match goal with H : is_space _ = false |- _ => rewrite H end.
  cbn -[is_space].
  repeat match goal with H : is_space _ = false |- _ => rewrite H end.
  reflexivity.
Qed.

Lemma no_space_trim (l : list ascii) :
  Forall (fun c => is_space c = false) l → trim l = l.
Proof.
  intros Hl. unfold trim.
  rewrite (drop_spaces_no_space l) by (destruct Hl; done).
  assert (Hr : Forall (fun c => is_space c = false) (rev l))
    by (by apply Forall_rev).
  rewrite (drop_spaces_no_space (rev l)) by (destruct Hr; done).
  apply rev_involutive.
Qed.

Ltac use_digits :=
  repeat match goal with
         | H : is_digit ?c = true |- _ =>
             rewrite ?H, ?(digit_not_space c H); clear H
         end.

(** The text [formatSharingCode] writes consists of digits and dashes, is at
    most eleven characters long, and neither starts nor ends with a dash. *)
Lemma format_chars_alphabet (value : list ascii) :
  Forall (fun c => is_digit c = true ∨ c = "-"%char) (format_chars value)
  ∧ (length (format_chars value) ≤ 11)%nat
  ∧ head (format_chars value) ≠ Some "-"%char
  ∧ last (format_chars value) ≠ Some "-"%char.
Proof.
  unfold format_chars.
  pose proof (filter_all_digits value) as Hd.
  revert Hd. generalize (List.filter is_digit value) as d. intros d Hd.
  assert (Hdash : is_digit "-" = false) by reflexivity.
  assert (Hne : ∀ c, is_digit c = true → Some c ≠ Some "-"%char).
  { intros c Hc [= ->]. congruence. }
  do 10 (destruct d as [|? d];
         [split_digits Hd; cbn -[is_digit];
          repeat split; auto 20 using Forall_cons, Forall_nil; (lia || done)|]).
  split_digits Hd; cbn -[is_digit].
  repeat split; auto 20 using Forall_cons, Forall_nil; lia.
Qed.

Lemma format_chars_no_space (value : list ascii) :
  Forall (fun c => is_space c = false) (format_chars value).
Proof.
  eapply Forall_impl; [apply format_chars_alphabet|].
  intros c [Hc| ->]; [by apply digit_not_space | reflexivity].
Qed.

(** With nine digits or more the formatted text has the full shape. *)
Lemma format_chars_dashed (value : list ascii) :
  (9 ≤ length (List.filter is_digit value))%nat →
  dashed_code (format_chars value).
Proof.
  unfold format_chars.
  pose proof (filter_all_digits value) as Hd.
  revert Hd. generalize (List.filter is_digit value) as d. intros d Hd Hlen.
  do 9 (destruct d as [|? d]; [simpl in Hlen; lia|]).
  assert (Hd9 : all_digits (take 9 (a :: a0 :: a1 :: a2 :: a3 :: a4 :: a5 :: a6 :: a7 :: d)))
    by (by apply all_digits_take).
  cbn in Hd9. cbn. by repeat eexists.
Qed.

(** With fewer than nine digits it does not pass the pattern. *)
Lemma format_chars_short (value : list ascii) :
  (length (List.filter is_digit value) < 9)%nat →
  pattern_test (format_chars value) = false.
Proof.
  unfold format_chars.
  pose proof (filter_all_digits value) as Hd.
  revert Hd. generalize (List.filter is_digit value) as d. intros d Hd Hlen.
  do 9 (destruct d as [|? d];
        [split_digits Hd; cbn -[is_digit]; use_digits; reflexivity|]).
  simpl in Hlen. lia.
Qed.

Lemma chars_app (v w : string) : chars (v ++ w)%string = chars v ++ chars w.
Proof.
  unfold chars. induction v as [|c v IH]; simpl; [done|]. by rewrite IH.
Qed.

Lemma str_empty (l : list ascii) : String.eqb (str l) "" = true ↔ l = [].
Proof. destruct l; simpl; split; congruence. Qed.

(** ** What the input field and the connect button do together *)

(** The text [formatSharingCode] writes into the input field consists of
    digits and dashes only, has at most eleven characters, and neither
    starts nor ends with a dash. *)
Theorem formatSharingCode_shape (value : string) :
  Forall (fun c => is_digit c = true ∨ c = "-"%char)
         (chars (formatSharingCode value))
  ∧ (length (chars (formatSharingCode value)) ≤ 11)%nat
  ∧ head (chars (formatSharingCode value)) ≠ Some "-"%char
  ∧ last (chars (formatSharingCode value)) ≠ Some "-"%char.
Proof.
  unfold formatSharingCode. rewrite chars_str. apply format_chars_alphabet.
Qed.

Lemma format_valid_iff_nine (value : string) :
  validateSharingCode (formatSharingCode value) = true
  ↔ (9 ≤ length (List.filter is_digit (chars value)))%nat.
Proof.
  unfold validateSharingCode, formatSharingCode. rewrite chars_str.
  rewrite (filter_no_space_id _ (format_chars_no_space _)).
  destruct (le_lt_dec 9 (length (List.filter is_digit (chars value))))
    as [Hlen|Hlen].
  - split; [done|]. intros _.
    by apply dashed_code_test, format_chars_dashed.
  - rewrite (format_chars_short _ Hlen). split; [discriminate | lia].
Qed.

(** The formatted text passes [validateSharingCode] exactly when the typed
    text holds at least nine digits. *)
Theorem formatted_code_valid_iff_nine_digits (value : string) :
  validateSharingCode (formatSharingCode value) = true
  ↔ (9 ≤ length (List.filter is_digit (chars value)))%nat.
Proof. apply format_valid_iff_nine. Qed.

Lemma connect_click_decision (value : string) (isConnected : bool) :
  let n := length (List.filter is_digit (chars value)) in
  on_connect_click (on_input value) isConnected
  = if (n =? 0)%nat then
      connect_status "Please enter a sharing code" "error"
    else if (n <? 9)%nat then
      connect_status "Invalid sharing code format. Please use XXX-XXX-XXX format." "error"
    else if isConnected then
      connect_status "Already connected. Disconnect first to connect to a different screen." "info"
    else connect_join (formatSharingCode value).
Proof.
  intros n. unfold on_connect_click, on_input.
  assert (Htrim : str (trim (chars (formatSharingCode value)))
                  = formatSharingCode value).
  { unfold formatSharingCode at 1. rewrite chars_str.
    by rewrite (no_space_trim _ (format_chars_no_space _)). }
  rewrite Htrim.
  destruct (Nat.eqb_spec n 0) as [Hn|Hn].
  - assert (He : formatSharingCode value = "").
    { unfold n in Hn. apply length_zero_iff_nil in Hn.
      unfold formatSharingCode, format_chars. rewrite Hn. reflexivity. }
    by rewrite He.
  - assert (He : String.eqb (formatSharingCode value) "" = false).
    { apply not_true_is_false. intros He.
      unfold formatSharingCode in He. apply str_empty in He.
      pose proof (format_chars_digits (chars value)) as Hd.
      rewrite He in Hd. simpl in Hd. fold n in Hn.
      destruct (List.filter is_digit (chars value)); [done | discriminate Hd]. }
    rewrite He.
    destruct (Nat.ltb_spec n 9) as [Hlt|Hge].
    + assert (Hv : validateSharingCode (formatSharingCode value) = false).
      { apply not_true_is_false. rewrite format_valid_iff_nine.
        fold n. lia. }
      by rewrite Hv.
    + assert (Hv : validateSharingCode (formatSharingCode value) = true).
      { rewrite format_valid_iff_nine. by fold n. }
      by rewrite Hv.
Qed.

(** The connect button on a text that went through the input listener:
    with no digit typed it asks for a code, with one to eight digits it
    reports a wrong format, and with nine or more it joins with the
    formatted code of the first nine digits, unless the page is already
    connected. Nothing else is ever sent as a code. *)
Theorem connect_click_after_input (value : string) (isConnected : bool) :
  let n := length (List.filter is_digit (chars value)) in
  on_connect_click (on_input value) isConnected
  = if (n =? 0)%nat then
      connect_status "Please enter a sharing code" "error"
    else if (n <? 9)%nat then
      connect_status "Invalid sharing code format. Please use XXX-XXX-XXX format." "error"
    else if isConnected then
      connect_status "Already connected. Disconnect first to connect to a different screen." "info"
    else connect_join (formatSharingCode value).
Proof. apply connect_click_decision. Qed.

Lemma input_gives_code (code value : string) :
  dashed_code (chars code) →
  List.filter is_digit (chars value) = List.filter is_digit (chars code) →
  on_input value = code ∧ validateSharingCode (on_input value) = true.
Proof.
  intros Hcode Hd. unfold on_input.
  assert (Hfix : formatSharingCode code = code).
  { unfold formatSharingCode. by rewrite (dashed_code_format _ Hcode), str_chars. }
  assert (Heq : formatSharingCode value = code).
  { rewrite <- Hfix. apply formatSharingCode_same_first_nine. by rewrite Hd. }
  split; [done|]. rewrite Heq. unfold validateSharingCode.
  rewrite (filter_no_space_id _ (dashed_code_no_space _ Hcode)).
  by apply dashed_code_test.
Qed.

(** A code of the shape DDD-DDD-DDD is what the input listener makes of any
    text whose digits are, in order, the nine digits of the code: spaces,
    dashes and other characters typed in between do not matter. *)
Theorem typed_digits_give_code (code value : string) :
  dashed_code (chars code) →
  List.filter is_digit (chars value) = List.filter is_digit (chars code) →
  on_input value = code ∧ validateSharingCode (on_input value) = true.
Proof. apply input_gives_code. Qed.

Lemma typed_digits_give_code_witness :
  (dashed_code (chars "550-100-999")
   ∧ List.filter is_digit (chars " 550 100/999 ")
     = List.filter is_digit (chars "550-100-999"))
  ∧ on_input " 550 100/999 " = "550-100-999"
  ∧ validateSharingCode (on_input " 550 100/999 ") = true.
Proof.
  assert (Hc : dashed_code (chars "550-100-999")).
  { do 9 eexists. split; [reflexivity|]. repeat constructor. }
  assert (Hd : List.filter is_digit (chars " 550 100/999 ")
               = List.filter is_digit (chars "550-100-999")) by reflexivity.
  split; [by split|].
  exact (typed_digits_give_code "550-100-999" " 550 100/999 " Hc Hd).
Defined.

(** Typing on only ever extends the formatted text: what the field shows
    for a text is a prefix of what it shows for any continuation of it. *)
Theorem formatSharingCode_extends (value more : string) :
  chars (formatSharingCode value)
    `prefix_of` chars (formatSharingCode (value ++ more)%string).
Proof.
  unfold formatSharingCode. rewrite !chars_str, chars_app.
  unfold format_chars. rewrite List.filter_app.
  generalize (List.filter is_digit (chars value)) as d.
  generalize (List.filter is_digit (chars more)) as e. intros e d.
  do 10 (destruct d as [|? d];
         [do 10 (destruct e as [|? e]; [eexists; reflexivity|]);
          eexists; reflexivity|]).
  exists []. reflexivity.
Qed.

(** ** The rewriting of a descriptor *)

Lemma strip_prefix_inv (p s rest : list ascii) :
  strip_prefix p s = Some rest → s = p ++ rest.
Proof.
  revert s. induction p as [|a p IH]; intros [|b s]; simpl; try congruence.
  destruct (Ascii.eqb_spec a b) as [->|]; [|done].
  intros H. by rewrite (IH _ H).
Qed.

Lemma span_digits_inv (s ds rest : list ascii) :
  span_digits s = (ds, rest) → s = ds ++ rest ∧ all_digits ds.
Proof.
  revert ds rest. induction s as [|c s IH]; intros ds rest; cbn -[is_digit].
  - intros [= <- <-]. by split; [|constructor].
  - destruct (is_digit c) eqn:Hc.
    + destruct (span_digits s) as [ds' rest'] eqn:E.
      intros [= <- <-]. destruct (IH _ _ eq_refl) as [-> Hds].
      split; [done | by constructor].
    + intros [= <- <-]. by split; [|constructor].
Qed.

Lemma match_here_inv (prefix suffix : string) (s g : list ascii) (len : nat) :
  match_here prefix suffix s = Some (g, len) →
  ∃ tail, s = chars prefix ++ g ++ chars suffix ++ tail
          ∧ len = (length (chars prefix) + length g + length (chars suffix))%nat
          ∧ g ≠ [] ∧ all_digits g.
Proof.
  unfold match_here.
  destruct (strip_prefix (chars prefix) s) as [rest|] eqn:Hp; [|done].
  destruct (span_digits rest) as [ds rest'] eqn:Hs.
  destruct ds as [|d ds]; [done|].
  destruct (strip_prefix (chars suffix) rest') as [tail|] eqn:Hx; [|done].
  intros [= <- <-]. exists tail.
  apply strip_prefix_inv in Hp, Hx. apply span_digits_inv in Hs as [Hs Hd].
  subst. by repeat split.
Qed.

Lemma occurs_middle (needle before after : list ascii) :
  occurs needle (before ++ needle ++ after) = true.
Proof.
  induction before as [|c before IH]; simpl.
  - pose proof (strip_prefix_app needle after) as Hp.
    destruct (needle ++ after); simpl; by rewrite Hp.
  - destruct (strip_prefix needle (c :: before ++ needle ++ after)); [done|].
    apply IH.
Qed.

Lemma occurs_tail (needle : list ascii) (c : ascii) (s : list ascii) :
  occurs needle (c :: s) = false → occurs needle s = false.
Proof.
  simpl. by destruct (strip_prefix needle (c :: s)).
Qed.

(** A pattern that matches nowhere leaves the text as it is. *)
Lemma replace_all_no_match pattern replacement (s : list ascii) :
  (∀ k, pattern (drop k s) = None) →
  replace_all pattern replacement s = s.
Proof.
  unfold replace_all. induction s as [|c s IH]; intros Hno; simpl; [done|].
  pose proof (Hno 0%nat) as H0. simpl in H0. rewrite H0.
  f_equal. apply IH. intros k. apply (Hno (S k)).
Qed.

Lemma occurs_drop (needle s : list ascii) (k : nat) :
  occurs needle s = false → occurs needle (drop k s) = false.
Proof.
  revert s. induction k as [|k IH]; intros s Hs; [done|].
  destruct s as [|c s]; [done|]. simpl. apply IH. by eapply occurs_tail.
Qed.

Lemma match_here_needs_prefix (prefix suffix : string) (s : list ascii) :
  occurs (chars prefix) s = false → match_here prefix suffix s = None.
Proof.
  intros Hno. destruct (match_here prefix suffix s) as [[g len]|] eqn:E; [|done].
  apply match_here_inv in E as (tail & -> & _).
  pose proof (occurs_middle (chars prefix) [] (g ++ chars suffix ++ tail)) as H.
  simpl in H. congruence.
Qed.

Lemma match_here_needs_suffix (prefix suffix : string) (s : list ascii) :
  occurs (chars suffix) s = false → match_here prefix suffix s = None.
Proof.
  intros Hno. destruct (match_here prefix suffix s) as [[g len]|] eqn:E; [|done].
  apply match_here_inv in E as (tail & -> & _).
  pose proof (occurs_middle (chars suffix) (chars prefix ++ g) tail) as H.
  rewrite <- app_assoc in H. congruence.
Qed.

(** A descriptor with no format-parameter line and no H264 payload type is
    returned as it is. *)
Theorem optimizeSDPForLatency_unchanged (sdp : string) :
  occurs (chars "a=fmtp:") (chars sdp) = false →
  occurs (chars " H264") (chars sdp) = false →
  optimizeSDPForLatency sdp = sdp.
Proof.
  intros Hf Hh. unfold optimizeSDPForLatency.
  rewrite (replace_all_no_match fmtp_pattern).
  - rewrite (replace_all_no_match h264_pattern); [apply str_chars|].
    intros k. apply match_here_needs_suffix. by apply occurs_drop.
  - intros k. apply match_here_needs_prefix. by apply occurs_drop.
Qed.

Lemma optimizeSDPForLatency_unchanged_witness :
  let sdp := sdp_of_lines ["m=video 9 UDP/TLS/RTP/SAVPF 97";
                           "a=rtpmap:97 VP8/90000";
                           "a=rtcp-fb:97 nack pli"] in
  (occurs (chars "a=fmtp:") (chars sdp) = false
   ∧ occurs (chars " H264") (chars sdp) = false)
  ∧ optimizeSDPForLatency sdp = sdp.
Proof.
  split; [by split|].
  apply optimizeSDPForLatency_unchanged; reflexivity.
Defined.

Lemma replace_all_at_match pattern replacement (s g : list ascii) (n : nat) :
  s ≠ [] → pattern s = Some (g, S n) →
  replace_all pattern replacement s
  = replacement g ++ replace_all pattern replacement (drop (S n) s).
Proof.
  intros Hs Hm. unfold replace_all. destruct s as [|c s]; [done|].
  simpl. by rewrite Hm, replace_from_skip.
Qed.

(** Each of the two replacements keeps the matched text and only adds to
    it, so a pass never deletes or reorders a character. *)
Lemma replace_all_sublist (prefix suffix : string) replacement (s : list ascii) :
  chars prefix ≠ [] →
  (∀ g, (chars prefix ++ g ++ chars suffix) `sublist_of` replacement g) →
  s `sublist_of` replace_all (match_here prefix suffix) replacement s.
Proof.
  intros Hp Hr.
  remember (length s) as n eqn:Hn. revert s Hn.
  induction n as [n IHn] using lt_wf_ind. intros s Hn.
  assert (IH : ∀ t, (length t < length s)%nat →
               t `sublist_of` replace_all (match_here prefix suffix) replacement t).
  { intros t Ht. apply (IHn (length t)); [lia | done]. }
  clear IHn Hn.
  destruct s as [|c s]; [done|].
  destruct (match_here prefix suffix (c :: s)) as [[g len]|] eqn:Hm.
  - pose proof Hm as Hinv.
    apply match_here_inv in Hinv as (tail & Hs & Hlen & _).
    destruct len as [|m].
    { destruct (chars prefix); [done | simpl in Hlen; lia]. }
    rewrite (replace_all_at_match _ _ _ g m) by done.
    assert (Hdrop : drop (S m) (c :: s) = tail).
    { rewrite Hs, Hlen. rewrite !app_assoc, <- !length_app.
      apply drop_app_length. }
    rewrite Hdrop. rewrite Hs at 1. rewrite !app_assoc.
    apply sublist_app.
    + rewrite <- app_assoc. apply Hr.
    + apply IH. rewrite Hs. rewrite !length_app.
      destruct (chars prefix); [done | simpl; lia].
  - unfold replace_all. simpl. rewrite Hm. apply sublist_skip.
    apply (IH s). simpl. lia.
Qed.

(** The rewriting only inserts text: the descriptor it is given can be read
    off its result by leaving characters out, so no character of the
    descriptor is lost or moved, and the result is at least as long. *)
Theorem optimizeSDPForLatency_only_inserts (sdp : string) :
  chars sdp `sublist_of` chars (optimizeSDPForLatency sdp)
  ∧ (length (chars sdp) ≤ length (chars (optimizeSDPForLatency sdp)))%nat.
Proof.
  assert (Hsub : chars sdp `sublist_of` chars (optimizeSDPForLatency sdp)).
  { unfold optimizeSDPForLatency. rewrite chars_str.
    etrans; [|apply (replace_all_sublist "a=rtpmap:" " H264")].
    - apply (replace_all_sublist "a=fmtp:" " "); [done|].
      intros g. unfold fmtp_replacement.
      apply sublist_app; [done|]. apply sublist_app; [done|].
      change (chars " x-google-max-bitrate=10000;x-google-min-bitrate=2000;x-google-start-bitrate=5000;")
        with (chars " "
              ++ chars "x-google-max-bitrate=10000;x-google-min-bitrate=2000;x-google-start-bitrate=5000;").
      by apply sublist_inserts_r.
    - done.
    - intros g. unfold h264_replacement.
      apply sublist_app; [done|]. apply sublist_app; [done|].
      by apply sublist_inserts_r. }
  split; [done | by apply sublist_length].
Qed.

End TextMore.

(** * Further properties of the relay *)

Module RelayMore.
Import Relay RelayFacts.

(** ** Joining *)

(** The first join of a free room wins: the next join with the same code,
    by whomever, is answered "Room is full" and changes nothing. *)
Theorem second_join_is_refused
    (s : State) (c v1 v2 : string) (room : Room) :
  rooms s !! c = Some room → viewer room = None → v1 ≠ "" →
  let s1 := fst (on_join_room v1 c s) in
  rooms s1 !! c = Some (mkRoom (host room) (Some v1) (createdAt room))
  ∧ on_join_room v2 c s1 = (s1, [callback (reply_failure "Room is full")]).
Proof.
  intros Hc Hv Hv1. unfold on_join_room at 1 2. rewrite Hc, Hv. simpl.
  split; [by rewrite lookup_insert_eq|].
  unfold on_join_room. simpl. rewrite lookup_insert_eq. simpl.
  by destruct (String.eqb_spec v1 "").
Qed.

Lemma second_join_is_refused_witness :
  (rooms one_room !! "550-100-999" = Some (mkRoom "host-1" None 0)
   ∧ "viewer-1" ≠ "")
  ∧ let s1 := fst (on_join_room "viewer-1" "550-100-999" one_room) in
    on_join_room "viewer-2" "550-100-999" s1
    = (s1, [callback (reply_failure "Room is full")]).
Proof.
  assert (Hr : rooms one_room !! "550-100-999" = Some (mkRoom "host-1" None 0))
    by (vm_compute; reflexivity).
  assert (Hv : "viewer-1" ≠ "") by discriminate.
  split; [by split|].
  exact (proj2 (second_join_is_refused one_room "550-100-999" "viewer-1"
                  "viewer-2" (mkRoom "host-1" None 0) Hr eq_refl Hv)).
Defined.

(** The relay lets a host join its own room. The join is accepted, the
    host's peer record becomes a viewer record, and the room is then full
    for everyone else; when this connection disconnects the room is deleted
    and "host-disconnected" is sent to the connection itself. *)
Theorem host_can_join_own_room (s : State) (c h : string) (room : Room) :
  rooms s !! c = Some room → host room = h → viewer room = None → h ≠ "" →
  let s1 := fst (on_join_room h c s) in
  snd (on_join_room h c s)
    = [emit_to h "viewer-joined" (socket_payload h); callback (reply_host h)]
  ∧ peers s1 !! h = Some (mkPeer c viewer_role)
  ∧ (∀ v, on_join_room v c s1 = (s1, [callback (reply_failure "Room is full")]))
  ∧ rooms (fst (on_disconnect h s1)) !! c = None
  ∧ snd (on_disconnect h s1) = [emit_to h "host-disconnected" no_payload].
Proof.
  intros Hc <- Hv Hh. unfold on_join_room at 1 2 3. rewrite Hc, Hv. simpl.
  assert (Ht : negb (String.eqb (host room) "") = true).
  { by destruct (String.eqb_spec (host room) ""). }
  repeat split.
  - by rewrite lookup_insert_eq.
  - intros v. unfold on_join_room. simpl. rewrite lookup_insert_eq. simpl.
    by rewrite Ht.
  - unfold on_disconnect. simpl. rewrite !lookup_insert_eq. simpl.
    rewrite decide_True by done. simpl. by rewrite lookup_delete_eq.
  - unfold on_disconnect. simpl. rewrite !lookup_insert_eq. simpl.
    rewrite decide_True by done. simpl. by rewrite Ht.
Qed.

Lemma host_can_join_own_room_witness :
  (rooms one_room !! "550-100-999" = Some (mkRoom "host-1" None 0)
   ∧ "host-1" ≠ "")
  ∧ let s1 := fst (on_join_room "host-1" "550-100-999" one_room) in
    peers s1 !! "host-1" = Some (mkPeer "550-100-999" viewer_role)
    ∧ (∀ v, on_join_room v "550-100-999" s1
            = (s1, [callback (reply_failure "Room is full")])).
Proof.
  assert (Hr : rooms one_room !! "550-100-999" = Some (mkRoom "host-1" None 0))
    by (vm_compute; reflexivity).
  assert (Hh : "host-1" ≠ "") by discriminate.
  split; [by split|].
  destruct (host_can_join_own_room one_room "550-100-999" "host-1"
              (mkRoom "host-1" None 0) Hr eq_refl eq_refl Hh)
    as (_ & Hp & Hfull & _).
  split; [exact Hp | exact Hfull].
Defined.

(** ** Disconnecting *)

(** A disconnect always removes the peer record of the departing socket and
    of no other; a disconnect of a socket without a peer record does
    nothing; and a second disconnect of the same socket does nothing and
    notifies nobody. *)
Theorem disconnect_unbinds_once (s : State) (sid : string) :
  let s' := fst (on_disconnect sid s) in
  peers s' = delete sid (peers s)
  ∧ peers s' !! sid = None
  ∧ (peers s !! sid = None → on_disconnect sid s = (s, []))
  ∧ on_disconnect sid s' = (s', []).
Proof.
  assert (Hp : peers (fst (on_disconnect sid s)) = delete sid (peers s)).
  { unfold on_disconnect. destruct (peers s !! sid) as [p|] eqn:E.
    - destruct (rooms s !! code p); [|done]. by repeat case_decide.
    - simpl. symmetry. by apply delete_id. }
  assert (Hn : peers (fst (on_disconnect sid s)) !! sid = None).
  { rewrite Hp. apply lookup_delete_eq. }
  repeat split; try done.
  - intros E. unfold on_disconnect. by rewrite E.
  - unfold on_disconnect at 1. by rewrite Hn.
Qed.

(** A disconnect touches no room but the one the peer index names for the
    departing socket. A room whose viewer slot the socket took in an
    earlier join therefore keeps the socket in its slot and stays full. *)
Theorem disconnect_leaves_other_rooms (s : State) (sid c : string) :
  (∀ p, peers s !! sid = Some p → code p ≠ c) →
  let s' := fst (on_disconnect sid s) in
  rooms s' !! c = rooms s !! c
  ∧ (∀ room v, rooms s !! c = Some room → viewer room = Some sid → sid ≠ "" →
       on_join_room v c s' = (s', [callback (reply_failure "Room is full")])).
Proof.
  intros Hother.
  assert (Hc : rooms (fst (on_disconnect sid s)) !! c = rooms s !! c).
  { unfold on_disconnect. destruct (peers s !! sid) as [p|] eqn:E; [|done].
    specialize (Hother p eq_refl).
    destruct (rooms s !! code p) as [room|]; [|done].
    repeat case_decide; simpl; try done.
    - by rewrite lookup_delete_ne.
    - by rewrite lookup_insert_ne. }
  split; [done|].
  intros room v Hroom Hv Hsid. unfold on_join_room. rewrite Hc, Hroom, Hv.
  by rewrite truthy_Some.
Qed.

Lemma disconnect_leaves_other_rooms_witness :
  (∀ p, peers joined_twice !! "viewer-1" = Some p → code p ≠ "550-100-999")
  ∧ let s' := fst (on_disconnect "viewer-1" joined_twice) in
    rooms s' !! "550-100-999" = Some (mkRoom "host-1" (Some "viewer-1") 0)
    ∧ on_join_room "viewer-2" "550-100-999" s'
      = (s', [callback (reply_failure "Room is full")]).
Proof.
  assert (Hp : ∀ p, peers joined_twice !! "viewer-1" = Some p
                    → code p ≠ "550-100-999").
  { intros p Hp. vm_compute in Hp. injection Hp as <-. discriminate. }
  assert (Hr : rooms joined_twice !! "550-100-999"
               = Some (mkRoom "host-1" (Some "viewer-1") 0))
    by (vm_compute; reflexivity).
  split; [exact Hp|].
  destruct (disconnect_leaves_other_rooms joined_twice "viewer-1" "550-100-999" Hp)
    as [Hc Hfull].
  split.
  - by rewrite Hc.
  - apply (Hfull (mkRoom "host-1" (Some "viewer-1") 0)); [done..|discriminate].
Defined.

(** ** The clean-up timer *)

(** The clean-up never adds or alters a room and leaves the peer index
    alone; two runs in a row amount to one run at the later of the two
    times, so a second run at the same or an earlier time removes nothing
    more. *)
Theorem cleanup_composes (s : State) (t1 t2 : Z) :
  cleanup t2 (cleanup t1 s) = cleanup (Z.max t1 t2) s
  ∧ rooms (cleanup t1 s) ⊆ rooms s
  ∧ peers (cleanup t1 s) = peers s.
Proof.
  repeat split.
  - assert (Hrooms : rooms (cleanup t2 (cleanup t1 s))
                     = rooms (cleanup (Z.max t1 t2) s)).
    { apply map_eq. intros c. rewrite !cleanup_lookup.
      destruct (rooms s !! c) as [room|]; [|done].
      repeat case_decide; try done; lia. }
    destruct (cleanup t2 (cleanup t1 s)) as [r p] eqn:E1.
    destruct (cleanup (Z.max t1 t2) s) as [r' p'] eqn:E2.
    assert (Hp : p = p').
    { change p with (peers (mkState r p)). change p' with (peers (mkState r' p')).
      by rewrite <- E1, <- E2. }
    simpl in Hrooms. by subst.
  - apply map_subseteq_spec. intros c room. apply cleanup_lookup_Some.
Qed.

(** Expiry is silent. When the clean-up removes the room that the peer
    index names for a host, the peer records stay as they are, a join with
    the code is answered "Invalid sharing code", and the host's later
    disconnect only removes its own peer record: nobody, the viewer
    included, is ever notified. *)
Theorem expiry_is_silent (s : State) (now : Z) (h : string) (p : Peer) (room : Room) :
  peers s !! h = Some p → rooms s !! code p = Some room →
  now - createdAt room > ONE_HOUR →
  let s1 := cleanup now s in
  step (ev_cleanup now) s = (s1, [])
  ∧ peers s1 = peers s
  ∧ (∀ v, on_join_room v (code p) s1
          = (s1, [callback (reply_failure "Invalid sharing code")]))
  ∧ on_disconnect h s1 = (mkState (rooms s1) (delete h (peers s)), []).
Proof.
  intros Hp Hroom Hold.
  assert (Hgone : rooms (cleanup now s) !! code p = None).
  { rewrite cleanup_lookup, Hroom. by rewrite decide_True. }
  repeat split.
  - intros v. unfold on_join_room. by rewrite Hgone.
  - unfold on_disconnect. rewrite cleanup_peers, Hp. by rewrite Hgone.
Qed.

Lemma expiry_is_silent_witness :
  (peers paired_session !! "host-1" = Some (mkPeer "550-100-999" host_role)
   ∧ rooms paired_session !! "550-100-999"
     = Some (mkRoom "host-1" (Some "viewer-1") 0)
   ∧ 3600001 - 0 > ONE_HOUR)
  ∧ let s1 := cleanup 3600001 paired_session in
    peers s1 = peers paired_session
    ∧ on_disconnect "host-1" s1
      = (mkState (rooms s1) (delete "host-1" (peers paired_session)), []).
Proof.
  assert (Hp : peers paired_session !! "host-1"
               = Some (mkPeer "550-100-999" host_role))
    by (vm_compute; reflexivity).
  assert (Hr : rooms paired_session !! "550-100-999"
               = Some (mkRoom "host-1" (Some "viewer-1") 0))
    by (vm_compute; reflexivity).
  assert (Hold : 3600001 - 0 > ONE_HOUR) by reflexivity.
  split; [by repeat split|].
  destruct (expiry_is_silent paired_session 3600001 "host-1"
              (mkPeer "550-100-999" host_role)
              (mkRoom "host-1" (Some "viewer-1") 0) Hp Hr Hold)
    as (_ & Hpeers & _ & Hdis).
  split; [exact Hpeers | exact Hdis].
Defined.

(** ** What a run of the relay can change *)

Lemma step_keeps_host (c : string) (e : Event) (s : State) (room' : Room) :
  ¬ creates c e → rooms (fst (step e s)) !! c = Some room' →
  ∃ room, rooms s !! c = Some room
          ∧ host room' = host room ∧ createdAt room' = createdAt room.
Proof.
  intros Hne. destruct e as [sid r1 r2 r3 now|sid c'| |sid|now]; simpl in *.
  - rewrite lookup_insert_ne by done. eauto.
  - unfold on_join_room. destruct (rooms s !! c') as [room|] eqn:E; [|eauto].
    destruct (truthy (viewer room)); [eauto|]. simpl.
    destruct (decide (c' = c)) as [->|Hc].
    + rewrite lookup_insert_eq. intros [= <-]. eauto.
    + rewrite lookup_insert_ne by done. eauto.
  - eauto.
  - unfold on_disconnect. destruct (peers s !! sid) as [p|]; [|eauto].
    destruct (rooms s !! code p) as [room|] eqn:E; [|eauto].
    repeat case_decide; simpl; eauto.
    + destruct (decide (code p = c)) as [<-|Hc].
      * by rewrite lookup_delete_eq.
      * rewrite lookup_delete_ne by done. eauto.
    + destruct (decide (code p = c)) as [<-|Hc].
      * rewrite lookup_insert_eq. intros [= <-]. eauto.
      * rewrite lookup_insert_ne by done. eauto.
  - intros Hc. change (rooms (cleanup now s) !! c = Some room') in Hc.
    apply cleanup_lookup_Some in Hc. eauto.
Qed.

(** Only generate-code makes a code live or gives a room its host and its
    creation time: through any run in which no request draws the code [c],
    a room found under [c] at the end was there at the start, with the same
    host and the same creation time. Joins, forwarded messages, disconnects
    and clean-ups can only change its viewer slot or remove it. *)
Theorem only_generate_code_creates_rooms
    (c : string) (es : list Event) (s : State) (room' : Room) :
  Forall (fun e => ¬ creates c e) es →
  rooms (run es s) !! c = Some room' →
  ∃ room, rooms s !! c = Some room
          ∧ host room' = host room ∧ createdAt room' = createdAt room.
Proof.
  revert s. induction es as [|e es IH]; intros s Hes Hc; [eauto|].
  inversion_clear Hes as [|? ? He Hrest]. simpl in Hc.
  destruct (IH _ Hrest Hc) as (room1 & H1 & Hh1 & Ht1).
  destruct (step_keeps_host c e s room1 He H1) as (room & H0 & Hh & Ht).
  exists room. repeat split; congruence.
Qed.

Lemma only_generate_code_creates_rooms_witness :
  let es := [ev_join_room "viewer-1" "550-100-999"; ev_disconnect "viewer-1";
             ev_cleanup 1000] in
  (Forall (fun e => ¬ creates "550-100-999" e) es
   ∧ rooms (run es one_room) !! "550-100-999" = Some (mkRoom "host-1" None 0))
  ∧ ∃ room, rooms one_room !! "550-100-999" = Some room
            ∧ "host-1" = host room ∧ 0 = createdAt room.
Proof.
  assert (Hes : Forall (fun e => ¬ creates "550-100-999" e)
                  [ev_join_room "viewer-1" "550-100-999";
                   ev_disconnect "viewer-1"; ev_cleanup 1000])
    by (repeat constructor; simpl; tauto).
  assert (Hc : rooms (run [ev_join_room "viewer-1" "550-100-999";
                           ev_disconnect "viewer-1"; ev_cleanup 1000] one_room)
                 !! "550-100-999" = Some (mkRoom "host-1" None 0))
    by (vm_compute; reflexivity).
  split; [by split|].
  exact (only_generate_code_creates_rooms "550-100-999" _ one_room
           (mkRoom "host-1" None 0) Hes Hc).
Defined.

(** The forwarded negotiation messages are invisible to the rooms and the
    peer index: a run ends in the same state with or without them, and each
    of them is passed on, with the sender attached, to whatever target it
    names, known to the relay or not. *)
Theorem signals_leave_no_trace (es : list Event) (s : State) :
  run es s = run (List.filter (fun e => negb (is_signal e)) es) s
  ∧ ∀ kind sid to body t,
      step (ev_signal kind sid to body) t
      = (t, [emit_to to kind (signal_payload body sid)]).
Proof.
  split; [|done].
  revert s. induction es as [|e es IH]; intros s; [done|].
  destruct e; simpl; apply IH.
Qed.

End RelayMore.

(** * Further properties of the control transport *)

Module ClientMore.
Import Client ClientFacts.

Local Open Scope list_scope.

(** ** Flushing a long queue *)

(** With the timer registered and the channel open, [n] ticks in a row send
    the first [50 * n] queued events, in their order, in batches of at most
    fifty, and leave the rest queued; once the queue is empty a tick sends
    nothing, so no batch is ever empty. *)
Theorem ticks_drain_in_order (s : State) (timer : positive) (times : list Z) :
  eventBatchInterval s = Some timer →
  dataChannel s = Some open →
  let q := eventBatchQueue s in
  let r := run (map act_tick times) s in
  concat (map batch_events (snd r)) = take (50 * length times) q
  ∧ eventBatchQueue (fst r) = drop (50 * length times) q
  ∧ Forall (fun e => ∃ evs t, e = sent (batch evs t)
                             ∧ (0 < length evs ≤ 50)%nat) (snd r).
Proof.
  revert s. induction times as [|t times IH]; intros s Hi Hc q r.
  - subst r q. simpl. by rewrite take_0, drop_0.
  - subst r. cbn [map run step]. rewrite Hi.
    change (length (t :: times)) with (S (length times)).
    destruct (eventBatchQueue s) as [|e q'] eqn:Hq.
    + (* nothing queued: the tick does nothing *)
      assert (Hf : flush t s = returned s []).
      { unfold flush. by rewrite Hq. }
      rewrite Hf. cbn [state_of effects_of].
      destruct (IH s Hi Hc) as (H1 & H2 & H3).
      destruct (run (map act_tick times) s) as [s' out].
      cbn [fst snd app] in *.
      rewrite Hq in *. subst q. rewrite H1, H2.
      by rewrite !take_nil, !drop_nil.
    + assert (Hf : flush t s
                   = returned (set_queue (drop 50 (e :: q')) s)
                              [sent (batch (take 50 (e :: q')) t)]).
      { unfold flush, channel_send. cbn [dataChannel set_queue].
        rewrite Hc, Hq. reflexivity. }
      rewrite Hf. cbn [state_of effects_of].
      destruct (IH (set_queue (drop 50 (e :: q')) s) Hi Hc) as (H1 & H2 & H3).
      destruct (run (map act_tick times) (set_queue (drop 50 (e :: q')) s))
        as [s' out]. cbn [fst snd eventBatchQueue set_queue] in *.
      subst q. repeat split.
      * cbn [map concat batch_events app]. rewrite H1.
        rewrite take_take_drop. f_equal. lia.
      * rewrite H2, drop_drop. f_equal; lia.
      * constructor; [|done]. eexists _, _. split; [reflexivity|].
        rewrite length_take. cbn [length]. lia.
Qed.

Lemma ticks_drain_in_order_witness :
  (eventBatchInterval controlling = Some 7%positive
   ∧ dataChannel controlling = Some open)
  ∧ let r := run (map act_tick [120; 136; 152]) controlling in
    concat (map batch_events (snd r)) = take 150 (eventBatchQueue controlling)
    ∧ eventBatchQueue (fst r) = drop 150 (eventBatchQueue controlling).
Proof.
  split; [by split|].
  destruct (ticks_drain_in_order controlling 7%positive [120; 136; 152]
              eq_refl eq_refl) as (H1 & H2 & _).
  split; [exact H1 | exact H2].
Defined.

(** ** A channel that is not open *)

(** While control is on and the channel is not open, ticks and wheel events
    in any order send nothing and drop nothing: every wheel event is added
    to the queue, behind what was queued before, and stays there however
    many ticks pass. *)
Theorem closed_channel_queue_only_grows (s : State) (acts : list Action) :
  remoteControlEnabled s = true →
  channel_open (dataChannel s) = false →
  Forall tick_or_wheel acts →
  eventBatchQueue (fst (run acts s)) = eventBatchQueue s ++ wheel_stamps acts
  ∧ snd (run acts s) = [].
Proof.
  revert s. induction acts as [|a acts IH]; intros s He Hc Hacts.
  - simpl. by rewrite app_nil_r.
  - inversion_clear Hacts as [|? ? Ha Hrest].
    destruct a; try contradiction; cbn [run step].
    + (* a tick *)
      assert (Hf : (match eventBatchInterval s with
                    | Some _ => flush now s
                    | None => returned s []
                    end) = returned s []).
      { destruct (eventBatchInterval s); [|done].
        unfold flush. by rewrite Hc, andb_false_r. }
      rewrite Hf. cbn [state_of effects_of].
      destruct (IH s He Hc Hrest) as [Hq Hout].
      destruct (run acts s) as [s' out]. simpl in *. by subst.
    + (* a wheel event *)
      unfold handleMouseWheel. rewrite He. cbn [negb state_of effects_of].
      destruct (IH (queueControlEvent (wheel deltaX deltaY deltaMode) now s)
                  He Hc Hrest) as [Hq Hout].
      destruct (run acts (queueControlEvent (wheel deltaX deltaY deltaMode) now s))
        as [s' out]. cbn [fst snd app] in *. rewrite Hq, Hout.
      split; [|done]. cbn [queueControlEvent eventBatchQueue set_queue].
      rewrite <- app_assoc. reflexivity.
Qed.

Lemma closed_channel_queue_only_grows_witness :
  let s := set_channel (Some connecting) controlling in
  let acts := [act_wheel 0 (3#1) 0 120; act_tick 126; act_wheel 0 (3#1) 0 130;
               act_tick 142] in
  (remoteControlEnabled s = true ∧ channel_open (dataChannel s) = false
   ∧ Forall tick_or_wheel acts)
  ∧ eventBatchQueue (fst (run acts s))
    = eventBatchQueue s ++ [stamp (wheel 0 (3#1) 0) 120; stamp (wheel 0 (3#1) 0) 130]
  ∧ snd (run acts s) = [].
Proof.
  assert (Hacts : Forall tick_or_wheel
                    [act_wheel 0 (3#1) 0 120; act_tick 126;
                     act_wheel 0 (3#1) 0 130; act_tick 142])
    by (repeat constructor).
  split; [by repeat split|].
  exact (closed_channel_queue_only_grows
           (set_channel (Some connecting) controlling) _ eq_refl eq_refl Hacts).
Defined.

(** ** The rate limit on mouse moves *)




(** The stamps themselves can lie closer: both moves of [late_stamp_moves]
    pass the throttle, eight milliseconds apart, and are queued with stamps
    seven milliseconds apart. *)
Lemma stamps_can_be_closer :
  let s := set_enabled true initial in
  eventBatchQueue (handle_moves late_stamp_moves s)
  = [stamp (mousemove (1#4) (1#2)) 101; stamp (mousemove (1#2) (1#2)) 108]
  ∧ lastMouseMoveTime (handle_moves late_stamp_moves s) = 108%Z.
Proof. split; reflexivity. Qed.

(** ** Switching control on and off *)

(** Switching control on twice, or off twice, leaves the page in the state
    it was in after the first time (only the status message is shown
    again): in particular a second enable keeps the timer of the first and
    registers no second one. *)
Theorem toggleRemoteControl_idempotent
    (enabled : bool) (timer1 timer2 : positive) (s : State) :
  fst (toggleRemoteControl enabled timer2
         (fst (toggleRemoteControl enabled timer1 s)))
  = fst (toggleRemoteControl enabled timer1 s).
Proof.
  destruct s as [en q iv ch last video lis].
  destruct enabled, video, iv; reflexivity.
Qed.

Lemma control_off_run (s : State) (acts : list Action) :
  control_off s →
  Forall (fun a => ¬ enables a) acts →
  control_off (fst (run acts s))
  ∧ List.filter is_sent (snd (run acts s)) = []
  ∧ eventBatchQueue (fst (run acts s)) = eventBatchQueue s.
Proof.
  revert s. induction acts as [|a acts IH]; intros s Hs Hacts; [done|].
  inversion_clear Hacts as [|? ? Ha Hrest].
  assert (Hstep : control_off (state_of (step a s))
                  ∧ List.filter is_sent (effects_of (step a s)) = []
                  ∧ eventBatchQueue (state_of (step a s)) = eventBatchQueue s).
  { destruct Hs as [He Hi].
    destruct s as [en q iv ch last video lis]; simpl in *; subst.
    destruct a as [[] t| | | | | | | | | | |]; simpl in *;
      try contradiction; try (by repeat split);
      unfold toggleRemoteControl, onclose, disconnectFromRemote; simpl;
      destruct video; simpl; by repeat split. }
  destruct Hstep as (Hs1 & Hout1 & Hq1).
  destruct (IH _ Hs1 Hrest) as (Hs2 & Hout2 & Hq2).
  simpl. destruct (run acts (state_of (step a s))) as [s2 out2]; simpl in *.
  repeat split; try apply Hs2.
  - by rewrite List.filter_app, Hout1, Hout2.
  - congruence.
Qed.

(** Once control is off and no timer is registered, nothing that happens on
    the page short of switching control on again sends a message, queues an
    event or brings the timer back. *)
Theorem control_off_is_silent (s : State) (acts : list Action) :
  control_off s →
  Forall (fun a => ¬ enables a) acts →
  control_off (fst (run acts s))
  ∧ List.filter is_sent (snd (run acts s)) = []
  ∧ eventBatchQueue (fst (run acts s)) = eventBatchQueue s.
Proof. apply control_off_run. Qed.

Lemma control_off_is_silent_witness :
  let acts := [act_channel (Some open); act_mousemove (1#2) (1#2) 40 40;
               act_keydown "a" "KeyA" false false false false 50; act_tick 56] in
  (control_off initial ∧ Forall (fun a => ¬ enables a) acts)
  ∧ List.filter is_sent (snd (run acts initial)) = []
  ∧ eventBatchQueue (fst (run acts initial)) = [].
Proof.
  assert (Hoff : control_off initial) by (by split).
  assert (Hacts : Forall (fun a => ¬ enables a)
                    [act_channel (Some open); act_mousemove (1#2) (1#2) 40 40;
                     act_keydown "a" "KeyA" false false false false 50;
                     act_tick 56])
    by (repeat constructor; simpl; tauto).
  split; [by split|].
  destruct (control_off_is_silent initial _ Hoff Hacts) as (_ & Hout & Hq).
  split; [exact Hout | exact Hq].
Defined.

(** [disconnectFromRemote] stops the transport from every state, with or
    without the remote video element: control is off, the timer is cleared,
    the channel and the display are forgotten, the events queued on a
    running timer are dropped, and nothing is sent afterwards until control
    is switched on again. *)
Theorem disconnectFromRemote_always_stops (s : State) (timer : positive) :
  let s' := fst (disconnectFromRemote timer s) in
  control_off s'
  ∧ dataChannel s' = None
  ∧ remoteVideo s' = None
  ∧ (eventBatchInterval s ≠ None → eventBatchQueue s' = [])
  ∧ ∀ acts, Forall (fun a => ¬ enables a) acts →
      List.filter is_sent (snd (run acts s')) = [].
Proof.
  intros s'.
  assert (Hoff : control_off s' ∧ dataChannel s' = None ∧ remoteVideo s' = None
                 ∧ (eventBatchInterval s ≠ None → eventBatchQueue s' = [])).
  { subst s'. destruct s as [en q iv ch last video lis].
    destruct en, iv, video; unfold control_off; simpl; repeat split; done. }
  destruct Hoff as (Hoff & Hc & Hv & Hq). repeat split; try done; try apply Hoff.
  intros acts Hacts. by apply (control_off_run s' acts Hoff Hacts).
Qed.

(** ** Keys and buttons *)

(** The key-down of F5, Ctrl+R, F11 and F12 is left to the browser and not
    sent, but the key-up of the same key is sent all the same. *)
Theorem shortcut_keydown_dropped_keyup_sent
    (s : State) (key code : string) (ctrl shift alt meta : bool) (now : Z) :
  remoteControlEnabled s = true →
  dataChannel s = Some open →
  browser_shortcut key ctrl →
  handleKeyDown key code ctrl shift alt meta now s = returned s []
  ∧ handleKeyUp key code ctrl shift alt meta now s
    = returned s [sent (single (stamp (keyup key code ctrl shift alt meta) now))].
Proof.
  intros He Hc Hkey. unfold handleKeyDown, handleKeyUp, sendControlEventImmediate.
  rewrite He, Hc. cbn [negb channel_open channel_send]. split; [|done].
  destruct Hkey as [ -> | [ [ -> -> ] | [ -> | -> ] ] ];
    try reflexivity; by destruct ctrl.
Qed.

Lemma shortcut_keydown_dropped_keyup_sent_witness :
  (remoteControlEnabled controlling = true
   ∧ dataChannel controlling = Some open
   ∧ browser_shortcut "F5" false)
  ∧ handleKeyDown "F5" "F5" false false false false 200 controlling
    = returned controlling []
  ∧ handleKeyUp "F5" "F5" false false false false 210 controlling
    = returned controlling
        [sent (single (stamp (keyup "F5" "F5" false false false false) 210))].
Proof.
  assert (Hk : browser_shortcut "F5" false) by (by left).
  split; [by repeat split|]. split.
  - exact (proj1 (shortcut_keydown_dropped_keyup_sent controlling "F5" "F5"
                    false false false false 200 eq_refl eq_refl Hk)).
  - exact (proj2 (shortcut_keydown_dropped_keyup_sent controlling "F5" "F5"
                    false false false false 210 eq_refl eq_refl Hk)).
Defined.

(** A button press overtakes the moves queued before it: with control on
    and the channel open it is sent at once, on its own and with its own
    time stamp, the queue is left as it was, and the moves follow with the
    next tick. *)
Theorem button_overtakes_queued_moves
    (s : State) (timer : positive) (button : Z) (x y : Q) (t1 t2 : Z) :
  remoteControlEnabled s = true →
  dataChannel s = Some open →
  eventBatchInterval s = Some timer →
  eventBatchQueue s ≠ [] →
  run [act_mousedown button x y t1; act_tick t2] s
  = (set_queue (drop 50 (eventBatchQueue s)) s,
     [sent (single (stamp (mousedown button x y) t1));
      sent (batch (take 50 (eventBatchQueue s)) t2)]).
Proof.
  intros He Hc Hi Hq. cbn [run step].
  unfold handleMouseDown, sendControlEventImmediate.
  rewrite He, Hc. cbn [negb channel_open channel_send state_of effects_of].
  rewrite Hi. unfold flush, channel_send. cbn [dataChannel set_queue].
  rewrite Hc. destruct (eventBatchQueue s) as [|e q]; [done|]. reflexivity.
Qed.

Lemma button_overtakes_queued_moves_witness :
  (remoteControlEnabled controlling = true
   ∧ dataChannel controlling = Some open
   ∧ eventBatchInterval controlling = Some 7%positive
   ∧ eventBatchQueue controlling ≠ [])
  ∧ snd (run [act_mousedown 0 (1#2) (1#2) 115; act_tick 126] controlling)
    = [sent (single (stamp (mousedown 0 (1#2) (1#2)) 115));
       sent (batch (eventBatchQueue controlling) 126)].
Proof.
  assert (Hq : eventBatchQueue controlling ≠ []) by discriminate.
  split; [by repeat split|].
  by rewrite (button_overtakes_queued_moves controlling 7%positive 0 (1#2) (1#2)
                115 126 eq_refl eq_refl eq_refl Hq).
Defined.

End ClientMore.

(** * The relay and the client together *)

Module EndToEnd.
Import Relay DoubleFacts RelayFacts Text TextFacts TextMore.

Local Open Scope list_scope.

Lemma three_digits_checked :
  forallb (fun k => match chars (number_to_string (Z.of_nat k)) with
                    | [a; b; c] => is_digit a && is_digit b && is_digit c
                    | _ => false
                    end) (seq 100 900) = true.
Proof. vm_compute. reflexivity. Qed.

Lemma three_digits (n : Z) :
  (100 ≤ n ≤ 999)%Z →
  ∃ a b c, chars (number_to_string n) = [a; b; c] ∧ all_digits [a; b; c].
Proof.
  intros Hn.
  pose proof (proj1 (forallb_forall _ _) three_digits_checked (Z.to_nat n)) as H.
  assert (Hin : In (Z.to_nat n) (seq 100 900)) by (apply in_seq; lia).
  specialize (H Hin). cbv beta in H. rewrite Z2Nat.id in H by lia.
  destruct (chars (number_to_string n)) as [|a [|b [|c [|d l]]]]; try discriminate.
  apply andb_prop in H as [H Hc]. apply andb_prop in H as [Ha Hb].
  exists a, b, c. split; [done|]. by repeat constructor.
Qed.

Lemma generated_code_shape (rnd1 rnd2 rnd3 : Q) :
  random_draw rnd1 → random_draw rnd2 → random_draw rnd3 →
  let code := generateSharingCode rnd1 rnd2 rnd3 in
  dashed_code (chars code)
  ∧ validateSharingCode code = true
  ∧ formatSharingCode code = code.
Proof.
  intros (D1 & H1 & H1') (D2 & H2 & H2') (D3 & H3 & H3') code.
  assert (Hd : dashed_code (chars code)).
  { subst code. unfold generateSharingCode. cbv zeta.
    destruct (three_digits _ (random_part_range rnd1 D1 H1 H1'))
      as (a & b & c & E1 & G1).
    destruct (three_digits _ (random_part_range rnd2 D2 H2 H2'))
      as (d & e & f & E2 & G2).
    destruct (three_digits _ (random_part_range rnd3 D3 H3 H3'))
      as (g & h & i & E3 & G3).
    rewrite !chars_app, E1, E2, E3.
    exists a, b, c, d, e, f, g, h, i. split; [reflexivity|].
    split_digits G1. split_digits G2. split_digits G3.
    by repeat constructor. }
  split; [exact Hd|]. split.
  - unfold validateSharingCode.
    rewrite (filter_no_space_id _ (dashed_code_no_space _ Hd)).
    by apply dashed_code_test.
  - unfold formatSharingCode. by rewrite (dashed_code_format _ Hd), str_chars.
Qed.

(** The three draws of the sample sessions are doubles of the unit
    interval. *)
Lemma sample_draws :
  random_draw (1#2) ∧ random_draw 0 ∧ random_draw (1023#1024).
Proof.
  repeat split; try reflexivity; try discriminate.
  - exists 1%Z, (-1)%Z. repeat split; try reflexivity; discriminate.
  - exists 0%Z, 0%Z. repeat split; try reflexivity; discriminate.
  - exists 1023%Z, (-10)%Z. repeat split; try reflexivity; discriminate.
Qed.

(** Every code the relay hands out has the shape DDD-DDD-DDD, the three
    parts being computed in double arithmetic from three draws of
    [Math.random()]; so it passes the client's [validateSharingCode], and
    the client's input listener leaves it as it is. *)
Theorem generated_code_is_well_formed (rnd1 rnd2 rnd3 : Q) :
  random_draw rnd1 → random_draw rnd2 → random_draw rnd3 →
  let code := generateSharingCode rnd1 rnd2 rnd3 in
  dashed_code (chars code)
  ∧ validateSharingCode code = true
  ∧ formatSharingCode code = code.
Proof. apply generated_code_shape. Qed.

Lemma generated_code_is_well_formed_witness :
  (random_draw (1#2) ∧ random_draw 0 ∧ random_draw (1023#1024))
  ∧ generateSharingCode (1#2) 0 (1023#1024) = "550-100-999"
  ∧ validateSharingCode (generateSharingCode (1#2) 0 (1023#1024)) = true
  ∧ formatSharingCode (generateSharingCode (1#2) 0 (1023#1024))
    = generateSharingCode (1#2) 0 (1023#1024).
Proof.
  pose proof sample_draws as Hdraws.
  split; [exact Hdraws|].
  destruct Hdraws as (H1 & H2 & H3).
  split; [vm_compute; reflexivity|].
  exact (proj2 (generated_code_is_well_formed (1#2) 0 (1023#1024) H1 H2 H3)).
Defined.

(** From the host's request to the viewer's join. After a generate-code
    request of [h], whatever the store held before and whatever doubles
    [Math.random()] drew, a viewer who types the nine digits of the code
    handed out, with whatever else in between, gets from the connect button
    a join with exactly that code, and the relay answers that join with the
    id of [h] and tells [h] that the viewer has joined. *)
Theorem typed_code_reaches_host
    (s : State) (h v : string) (rnd1 rnd2 rnd3 : Q) (now : Z) (typed : string) :
  random_draw rnd1 → random_draw rnd2 → random_draw rnd3 →
  let code := generateSharingCode rnd1 rnd2 rnd3 in
  let s1 := fst (on_generate_code h rnd1 rnd2 rnd3 now s) in
  List.filter is_digit (chars typed) = List.filter is_digit (chars code) →
  on_connect_click (on_input typed) false = connect_join code
  ∧ snd (on_join_room v code s1)
    = [emit_to h "viewer-joined" (socket_payload v); callback (reply_host h)]
  ∧ rooms (fst (on_join_room v code s1)) !! code = Some (mkRoom h (Some v) now).
Proof.
  intros H1 H2 H3 code s1 Htyped.
  destruct (generated_code_shape rnd1 rnd2 rnd3 H1 H2 H3)
    as (Hd & Hvalid & Hfix). fold code in Hd, Hvalid, Hfix.
  assert (Hin : on_input typed = code).
  { by apply (input_gives_code code typed Hd). }
  repeat split.
  - assert (Hn : length (List.filter is_digit (chars code)) = 9%nat).
    { destruct Hd as (a & b & c & d & e & f & g & i & j & Hc & Hall).
      rewrite Hc. split_digits Hall. cbn -[is_digit].
      repeat match goal with H : is_digit _ = true |- _ => rewrite H; clear H end.
      reflexivity. }
    rewrite connect_click_decision. cbv zeta. rewrite Htyped, Hn.
    unfold on_input in Hin. rewrite Hin. reflexivity.
  - subst s1. unfold on_join_room. simpl. by rewrite lookup_insert_eq.
  - subst s1. unfold on_join_room. simpl. rewrite lookup_insert_eq. simpl.
    by rewrite lookup_insert_eq.
Qed.

Lemma typed_code_reaches_host_witness :
  (random_draw (1#2) ∧ random_draw 0 ∧ random_draw (1023#1024)
   ∧ List.filter is_digit (chars "550 100 999")
     = List.filter is_digit (chars (generateSharingCode (1#2) 0 (1023#1024))))
  ∧ on_connect_click (on_input "550 100 999") false
    = connect_join (generateSharingCode (1#2) 0 (1023#1024))
  ∧ snd (on_join_room "viewer-1" (generateSharingCode (1#2) 0 (1023#1024))
           (fst (on_generate_code "host-1" (1#2) 0 (1023#1024) 0 init)))
    = [emit_to "host-1" "viewer-joined" (socket_payload "viewer-1");
       callback (reply_host "host-1")].
Proof.
  destruct sample_draws as (H1 & H2 & H3).
  assert (Ht : List.filter is_digit (chars "550 100 999")
               = List.filter is_digit
                   (chars (generateSharingCode (1#2) 0 (1023#1024))))
    by (vm_compute; reflexivity).
  split; [exact (conj H1 (conj H2 (conj H3 Ht)))|].
  destruct (typed_code_reaches_host init "host-1" "viewer-1" (1#2) 0 (1023#1024)
              0 "550 100 999" H1 H2 H3 Ht) as (Hc & Hj & _).
  split; [exact Hc | exact Hj].
Defined.

End EndToEnd.
